(** * Open3DV Visualizer: render-mode state, mouse state, geometry registry
      and window session.

    Shallow embedding of [src/Visualization/Visualizer.h].  The header holds
    the complete code of the three state structs ([PointCloudRenderMode],
    [MeshRenderMode], [MouseControl]) and the declarations of the
    [Visualizer] member functions.

    A C++ [double] is an IEEE 754 binary64 number.  It is embedded as a
    [spec_float] of the standard library with [prec = 53] and [emax = 1024],
    so that additions and multiplications round, and comparisons treat NaN
    and signed zeros, exactly as the compiled program does. *)

From Stdlib Require Import ZArith Lia Bool List String.
From Stdlib Require Import Floats.SpecFloat.
Import ListNotations.

Local Open Scope Z_scope.

(** ** IEEE 754 binary64 *)

Module Double.

Definition prec : Z := 53.
Definition emax : Z := 1024.

Definition double : Type := spec_float.

(** A value of type [double] held by the program is a canonical binary64
    datum. *)
Definition valid (x : double) : bool := valid_binary prec emax x.

(** The double nearest to [m * 2^e]; this is how a decimal literal with an
    exact binary expansion, or an integer argument, becomes a [double]. *)
Definition of_dyadic (m e : Z) : double := binary_normalize prec emax m e false.
Definition of_Z (m : Z) : double := of_dyadic m 0.

Definition add (x y : double) : double := SFadd prec emax x y.
Definition mul (x y : double) : double := SFmul prec emax x y.

(** The C++ comparison operators on doubles: all are false on NaN. *)
Definition le (x y : double) : bool := SFleb x y.
Definition lt (x y : double) : bool := SFltb x y.
Definition ge (x y : double) : bool :=
  match SFcompare x y with
  | Some (Gt | Eq) => true
  | _ => false
  end.
Definition gt (x y : double) : bool :=
  match SFcompare x y with
  | Some Gt => true
  | _ => false
  end.

End Double.

Import Double.

(** ** The structs of class Visualizer *)

Module Visualizer.

(** [enum PointColorOption], with the enumerators' integer values. *)
Inductive PointColorOption : Type :=
| POINTCOLOR_DEFAULT
| POINTCOLOR_COLOR
| POINTCOLOR_X
| POINTCOLOR_Y
| POINTCOLOR_Z.

Definition PointColorOption_value (o : PointColorOption) : Z :=
  match o with
  | POINTCOLOR_DEFAULT => 0
  | POINTCOLOR_COLOR => 1
  | POINTCOLOR_X => 2
  | POINTCOLOR_Y => 3
  | POINTCOLOR_Z => 4
  end.

(** The [const double] members of [PointCloudRenderMode].  They carry a
    default member initializer and no constructor overrides it, so they
    have the same value in every object. *)
Definition POINT_SIZE_MAX : double := of_Z 25.
Definition POINT_SIZE_MIN : double := of_Z 1.
Definition POINT_SIZE_STEP : double := of_Z 1.
Definition POINT_SIZE_DEFAULT : double := of_Z 5.

Record PointCloudRenderMode : Type := mkPointCloudRenderMode {
  point_size : double;
  point_color_option : PointColorOption;
  show_normal : bool
}.

(** [PointCloudRenderMode::PointCloudRenderMode()] *)
Definition PointCloudRenderMode_new : PointCloudRenderMode :=
  {| point_size := POINT_SIZE_DEFAULT;
     point_color_option := POINTCOLOR_DEFAULT;
     show_normal := false |}.

(** [void PointCloudRenderMode::ChangePointSize(double change)] *)
Definition ChangePointSize (this : PointCloudRenderMode) (change : double)
  : PointCloudRenderMode :=
  let new_point_size := add (point_size this) (mul change POINT_SIZE_STEP) in
  if ge new_point_size POINT_SIZE_MIN && le new_point_size POINT_SIZE_MAX
  then {| point_size := new_point_size;
          point_color_option := point_color_option this;
          show_normal := show_normal this |}
  else this.

(** [enum MeshRenderOption] *)
Inductive MeshRenderOption : Type :=
| MESHRENDER_VERTEXCOLOR
| MESHRENDER_FLATSHADE
| MESHRENDER_SMOOTHSHADE
| MESHRENDER_WIREFRAME.

Definition MeshRenderOption_value (o : MeshRenderOption) : Z :=
  match o with
  | MESHRENDER_VERTEXCOLOR => 0
  | MESHRENDER_FLATSHADE => 1
  | MESHRENDER_SMOOTHSHADE => 2
  | MESHRENDER_WIREFRAME => 3
  end.

(** [Eigen::Vector3d]: three doubles. *)
Record Vector3d : Type := mkVector3d {
  vx : double;
  vy : double;
  vz : double
}.

(** [const Eigen::Vector3d DEFAULT_COLOR = Eigen::Vector3d(0.5, 0.5, 0.5)]:
    a constant member of [MeshRenderMode], the same in every object. *)
Definition DEFAULT_COLOR : Vector3d :=
  {| vx := of_dyadic 1 (-1); vy := of_dyadic 1 (-1); vz := of_dyadic 1 (-1) |}.

Record MeshRenderMode : Type := mkMeshRenderMode {
  mesh_render_option : MeshRenderOption
}.

(** [MeshRenderMode::MeshRenderMode()] *)
Definition MeshRenderMode_new : MeshRenderMode :=
  {| mesh_render_option := MESHRENDER_FLATSHADE |}.

Record MouseControl : Type := mkMouseControl {
  is_mouse_left_button_down : bool;
  is_control_key_down : bool;
  mouse_position_x : double;
  mouse_position_y : double
}.

(** [MouseControl::MouseControl()]; the literal [0.0] is positive zero. *)
Definition MouseControl_new : MouseControl :=
  {| is_mouse_left_button_down := false;
     is_control_key_down := false;
     mouse_position_x := S754_zero false;
     mouse_position_y := S754_zero false |}.

(** The point size invariant of the spec: [1.0 <= x <= 25.0]. *)
Definition in_bounds (x : double) : bool :=
  le POINT_SIZE_MIN x && le x POINT_SIZE_MAX.

(** What clamping a size to [[lo, hi]] would be: a value below [lo] becomes
    [lo], a value above [hi] becomes [hi].  [ChangePointSize] is compared
    with it; the code itself has no such function. *)
Definition clamp (lo hi x : double) : double :=
  if lt x lo then lo else if gt x hi then hi else x.

(** [n] successive calls [ChangePointSize(1)] on a new render mode. *)
Definition grow (n : nat) : PointCloudRenderMode :=
  Nat.iter n (fun r => ChangePointSize r (of_Z 1)) PointCloudRenderMode_new.

(** Modelled from the spec: the operation that cycles [point_color_option]
    lives in the key-press handler of Visualizer.cpp, which is missing.
    Spec 4.1: cycling the color option is a simple
    next-in-enum-with-wraparound operation triggered by key events. *)
Definition PointColorOption_of_value (v : Z) : PointColorOption :=
  match v with
  | 0 => POINTCOLOR_DEFAULT
  | 1 => POINTCOLOR_COLOR
  | 2 => POINTCOLOR_X
  | 3 => POINTCOLOR_Y
  | _ => POINTCOLOR_Z
  end.

(** Modelled from the spec: one step of the cycle, the next enumerator with
    wraparound (spec 4.1). *)
Definition next_PointColorOption (o : PointColorOption) : PointColorOption :=
  PointColorOption_of_value ((PointColorOption_value o + 1) mod 5).

(** Modelled from the spec: the cycle operation on a render mode; it moves
    [point_color_option] one step and touches nothing else. *)
Definition CyclePointColorOption (this : PointCloudRenderMode)
  : PointCloudRenderMode :=
  {| point_size := point_size this;
     point_color_option := next_PointColorOption (point_color_option this);
     show_normal := show_normal this |}.

End Visualizer.

Import Visualizer.

(** ** The Visualizer object

    The header declares the member functions of [Visualizer]; their bodies
    are in Visualizer.cpp, which is not among the sources.  The members
    [view_control_], [color_map_ptr_], [background_color_] and
    [is_redraw_required_] play no part below and are left out. *)

Module Session.

(** [std::shared_ptr<const Geometry>]: the address of a geometry object
    together with its dynamic type.  The kinds are those of the two draw
    routines of the header, [DrawPointCloud] and [DrawTriangleMesh]. *)
Inductive GeometryKind : Type :=
| PointCloudGeometry
| TriangleMeshGeometry.

Record Geometry_ptr : Type := mkGeometry_ptr {
  address : nat;
  kind : GeometryKind
}.

(** Modelled from the spec: the states of the window lifecycle,
    {Open, Closing, Closed} (spec 4.5). *)
Inductive WindowLifecycle : Type :=
| Open
| Closing
| Closed.

(** [GLFWwindow]: what [CreateWindow] asks of the windowing system, and the
    lifecycle state of the window. *)
Record GLFWwindow : Type := mkGLFWwindow {
  window_name : string;
  width : Z;
  height : Z;
  left : Z;
  top : Z;
  lifecycle : WindowLifecycle
}.

Record Visualizer : Type := mkVisualizer {
  window_ : option GLFWwindow;
  mouse_control_ : MouseControl;
  pointcloud_render_mode_ : PointCloudRenderMode;
  mesh_render_mode_ : MeshRenderMode;
  geometry_ptrs_ : list Geometry_ptr
}.

(** Modelled from the spec: the constructor [Visualizer::Visualizer()] is
    missing.  The member structs are default-constructed; the native window
    is created in [CreateWindow] (spec 3), so there is none yet; no geometry
    is registered ([HasGeometry() == false] before any call, spec 8). *)
Definition Visualizer_new : Visualizer :=
  {| window_ := None;
     mouse_control_ := MouseControl_new;
     pointcloud_render_mode_ := PointCloudRenderMode_new;
     mesh_render_mode_ := MeshRenderMode_new;
     geometry_ptrs_ := [] |}.

(** Modelled from the spec: the body of [Visualizer::AddGeometry] is
    missing.  Spec 4.2: [Add(geometry)] appends a shared read-only
    reference; no removal, no deduplication. *)
Definition AddGeometry (this : Visualizer) (geometry_ptr : Geometry_ptr)
  : Visualizer :=
  {| window_ := window_ this;
     mouse_control_ := mouse_control_ this;
     pointcloud_render_mode_ := pointcloud_render_mode_ this;
     mesh_render_mode_ := mesh_render_mode_ this;
     geometry_ptrs_ := geometry_ptrs_ this ++ [geometry_ptr] |}.

(** Modelled from the spec: the body of [Visualizer::HasGeometry] is
    missing.  Spec 4.2: it reports whether any geometry is registered. *)
Definition HasGeometry (this : Visualizer) : bool :=
  match geometry_ptrs_ this with
  | [] => false
  | _ :: _ => true
  end.

(** The draw routine a frame calls on an entry. *)
Inductive DrawCall : Type :=
| DrawPointCloud (pointcloud : Geometry_ptr)
| DrawTriangleMesh (mesh : Geometry_ptr).

Definition drawn (c : DrawCall) : Geometry_ptr :=
  match c with
  | DrawPointCloud g => g
  | DrawTriangleMesh g => g
  end.

(** Modelled from the spec: the body of [Visualizer::Render] is missing.
    Spec 4.4, step 4: for each entry in the registry, dispatch on its
    dynamic geometry kind to [DrawPointCloud] or [DrawTriangleMesh].  The
    result is the sequence of draw calls of one frame. *)
Definition Render (this : Visualizer) : list DrawCall :=
  map (fun g => match kind g with
                | PointCloudGeometry => DrawPointCloud g
                | TriangleMeshGeometry => DrawTriangleMesh g
                end)
      (geometry_ptrs_ this).

(** The native events, one for each callback of the header. *)
Inductive WindowEvent : Type :=
| WindowRefresh
| WindowResize (w h : Z)
| MouseMove (x y : double)
| MouseScroll (x y : double)
| MouseButton (button action mods : Z)
| KeyPress (key scancode action mods : Z)
| WindowClose.

Definition is_WindowClose (ev : WindowEvent) : bool :=
  match ev with
  | WindowClose => true
  | _ => false
  end.

(** Modelled from the spec: the body of [WindowCloseCallback] is missing.
    Spec 4.5: transition to [Closing], release the resources, transition to
    [Closed]; [Closed] is terminal. *)
Definition begin_close (w : WindowLifecycle) : WindowLifecycle :=
  match w with
  | Open => Closing
  | Closing => Closing
  | Closed => Closed
  end.

(** Modelled from the spec: the second transition of the close callback,
    [Closing] to [Closed], once the resources are released (spec 4.5). *)
Definition finish_close (w : WindowLifecycle) : WindowLifecycle :=
  match w with
  | Open => Open
  | Closing => Closed
  | Closed => Closed
  end.

(** Modelled from the spec: [WindowCloseCallback] makes both transitions. *)
Definition WindowCloseCallback (w : WindowLifecycle) : WindowLifecycle :=
  finish_close (begin_close w).

(** Modelled from the spec: the effect of one event on the lifecycle.  Of
    the callbacks of spec 4.5 only the window-close one moves it. *)
Definition dispatch (w : WindowLifecycle) (ev : WindowEvent) : WindowLifecycle :=
  match ev with
  | WindowClose => WindowCloseCallback w
  | _ => w
  end.

Definition is_Closed (w : WindowLifecycle) : bool :=
  match w with
  | Closed => true
  | _ => false
  end.

(** Modelled from the spec: the body of [Visualizer::PollEvents] is missing.
    Spec 4.3: it drains whatever is queued without blocking and returns
    [false] once the window has been closed, [true] otherwise.  The queue is
    what the windowing system holds at the call. *)
Definition PollEvents (w : WindowLifecycle) (queue : list WindowEvent)
  : bool * WindowLifecycle :=
  let w' := fold_left dispatch queue w in
  (negb (is_Closed w'), w').

(** Modelled from the spec: the body of [Visualizer::WaitEvents] is missing.
    Spec 4.3: it blocks until at least one event arrives, then processes the
    queue, and returns like [PollEvents]. *)
Definition WaitEvents (w : WindowLifecycle) (first : WindowEvent)
  (queue : list WindowEvent) : bool * WindowLifecycle :=
  let w' := fold_left dispatch (first :: queue) w in
  (negb (is_Closed w'), w').

(** A caller that manages the loop itself issues a sequence of these. *)
Inductive EventCall : Type :=
| CallPollEvents (queue : list WindowEvent)
| CallWaitEvents (first : WindowEvent) (queue : list WindowEvent).

Definition call (w : WindowLifecycle) (c : EventCall) : bool * WindowLifecycle :=
  match c with
  | CallPollEvents queue => PollEvents w queue
  | CallWaitEvents first queue => WaitEvents w first queue
  end.

(** The values returned by the calls of an execution, in order. *)
Fixpoint returns (w : WindowLifecycle) (calls : list EventCall) : list bool :=
  match calls with
  | [] => []
  | c :: rest => fst (call w c) :: returns (snd (call w c)) rest
  end.

(** The lifecycle state after the calls of an execution. *)
Definition state_after (w : WindowLifecycle) (calls : list EventCall)
  : WindowLifecycle :=
  fold_left (fun w c => snd (call w c)) calls w.

(** Whether a call hands a close event to the dispatcher. *)
Definition sees_close (c : EventCall) : bool :=
  match c with
  | CallPollEvents queue => existsb is_WindowClose queue
  | CallWaitEvents first queue => existsb is_WindowClose (first :: queue)
  end.

End Session.

Import Session.

(** ** The steps of rounding *)

Module Rounding.

(** The number of low bits that rounding drops from the mantissa [m] at
    exponent [e] to reach the exponent the format gives to the value. *)
Definition canon_shift (m e : Z) : Z :=
  Z.max (fexp prec emax (Zdigits2 m + e) - e) 0.

(** The second half of [binary_round_aux]: the rounded mantissa [m1] is
    renormalised (a carry out of the 53rd bit costs one more shift) and
    checked for overflow. *)
Definition round_finish (sx : bool) (m1 e1 : Z) : spec_float :=
  match m1 / 2 ^ canon_shift m1 e1 with
  | Z0 => S754_zero sx
  | Zpos m =>
      if e1 + canon_shift m1 e1 <=? emax - prec
      then S754_finite sx m (e1 + canon_shift m1 e1)
      else S754_infinity sx
  | Zneg _ => S754_nan
  end.

(** [signed s y]: [y] is a zero, or a finite number or an infinity of
    sign [s] ([false] is plus); NaN is neither. *)
Definition signed (s : bool) (y : double) : bool :=
  match y with
  | S754_zero _ => true
  | S754_infinity s' | S754_finite s' _ _ => Bool.eqb s s'
  | S754_nan => false
  end.

End Rounding.

Import Rounding.

(** ** Integer point sizes

    The key handlers change the point size by whole steps.  The definitions
    below give the integer reading of [ChangePointSize], with which the code
    is compared further down. *)

Module IntegerSteps.

(** The integer counterpart of [ChangePointSize]: the size [n] becomes
    [n + k] when that lies in 1..25 and stays [n] otherwise. *)
Definition step_Z (n k : Z) : Z :=
  if (1 <=? n + k) && (n + k <=? 25) then n + k else n.

(** A render mode with the given point size. *)
Definition with_point_size (this : PointCloudRenderMode) (x : double)
  : PointCloudRenderMode :=
  {| point_size := x;
     point_color_option := point_color_option this;
     show_normal := show_normal this |}.

(** [n] successive calls [ChangePointSize(-1)] on a new render mode. *)
Definition shrink (n : nat) : PointCloudRenderMode :=
  Nat.iter n (fun r => ChangePointSize r (of_Z (-1))) PointCloudRenderMode_new.

(** The integers [lo], [lo + 1], ..., [lo + len - 1]. *)
Definition Zrange (lo : Z) (len : nat) : list Z :=
  map (fun i => lo + Z.of_nat i) (seq 0 len).

(** [std::isnan]. *)
Definition is_nan (x : double) : bool :=
  match x with
  | S754_nan => true
  | _ => false
  end.

(** Equality of two doubles as data (unlike [==], it tells the zeros apart
    and holds of NaN). *)
Definition double_eqb (x y : double) : bool :=
  match x, y with
  | S754_zero s, S754_zero s' => Bool.eqb s s'
  | S754_infinity s, S754_infinity s' => Bool.eqb s s'
  | S754_nan, S754_nan => true
  | S754_finite s m e, S754_finite s' m' e' =>
      Bool.eqb s s' && Pos.eqb m m' && Z.eqb e e'
  | _, _ => false
  end.

End IntegerSteps.

Import IntegerSteps.


(** ** Facts on binary64 rounding

  The rounding performed by [add] and [mul] is traced through the shift
  and round-to-nearest-even steps of the standard library's specification. *)

Module DoubleFacts.

Lemma digits2_pos_bounds (m : positive) :
  2 ^ (Zpos (digits2_pos m) - 1) <= Zpos m < 2 ^ Zpos (digits2_pos m).
Proof.
  induction m as [m IH | m IH | ]; cbn [digits2_pos].
  - rewrite Pos2Z.inj_succ.
    replace (Z.succ (Zpos (digits2_pos m)) - 1)
      with (Z.succ (Zpos (digits2_pos m) - 1)) by lia.
    rewrite !Z.pow_succ_r by lia. lia.
  - rewrite Pos2Z.inj_succ.
    replace (Z.succ (Zpos (digits2_pos m)) - 1)
      with (Z.succ (Zpos (digits2_pos m) - 1)) by lia.
    rewrite !Z.pow_succ_r by lia. lia.
  - cbn. lia.
Qed.

Lemma digits2_pos_lower (m : positive) (k : Z) :
  2 ^ k <= Zpos m -> k + 1 <= Zpos (digits2_pos m).
Proof.
  intros H. destruct (digits2_pos_bounds m) as [_ Hu].
  assert (Hlt : 2 ^ k < 2 ^ Zpos (digits2_pos m)) by lia.
  apply Z.pow_lt_mono_r_iff in Hlt; lia.
Qed.

Lemma digits2_pos_upper (m : positive) (k : Z) :
  0 <= k -> Zpos m < 2 ^ k -> Zpos (digits2_pos m) <= k.
Proof.
  intros Hk H. destruct (digits2_pos_bounds m) as [Hl _].
  assert (Hlt : 2 ^ (Zpos (digits2_pos m) - 1) < 2 ^ k) by lia.
  apply Z.pow_lt_mono_r_iff in Hlt; lia.
Qed.

Lemma pow2_pos (k : Z) : 0 <= k -> 0 < 2 ^ k.
Proof. intros. apply Z.pow_pos_nonneg; lia. Qed.

Lemma shr_1_m (mrs : shr_record) :
  0 <= shr_m mrs -> shr_m (shr_1 mrs) = shr_m mrs / 2.
Proof.
  destruct mrs as [m r s]. cbn [shr_m shr_1].
  destruct m as [ | [p | p | ] | p ]; cbn [shr_m]; intros H; try lia.
  - reflexivity.
  - apply (Z.div_unique _ _ _ 1); lia.
  - apply (Z.div_unique _ _ _ 0); lia.
  - reflexivity.
Qed.

Lemma iter_shr_1_m (p : positive) : forall mrs : shr_record,
  0 <= shr_m mrs ->
  shr_m (iter_pos shr_1 p mrs) = shr_m mrs / 2 ^ Zpos p.
Proof.
  induction p as [p IH | p IH | ]; intros mrs H; cbn [iter_pos].
  - assert (H1 : 0 <= shr_m (shr_1 mrs)).
    { rewrite shr_1_m by assumption. apply Z.div_pos; lia. }
    assert (H2 : 0 <= shr_m (iter_pos shr_1 p (shr_1 mrs))).
    { rewrite IH by assumption. apply Z.div_pos; [lia | apply pow2_pos; lia]. }
    rewrite IH, IH, shr_1_m by assumption.
    pose proof (pow2_pos (Zpos p) ltac:(lia)) as Hp.
    rewrite !Z.div_div by lia.
    f_equal. replace (Zpos p~1) with (1 + Zpos p + Zpos p) by lia.
    rewrite !Z.pow_add_r by lia. rewrite Z.pow_1_r. ring.
  - assert (H2 : 0 <= shr_m (iter_pos shr_1 p mrs)).
    { rewrite IH by assumption. apply Z.div_pos; [lia | apply pow2_pos; lia]. }
    rewrite IH, IH by assumption.
    pose proof (pow2_pos (Zpos p) ltac:(lia)) as Hp.
    rewrite !Z.div_div by lia.
    f_equal. replace (Zpos p~0) with (Zpos p + Zpos p) by lia.
    rewrite !Z.pow_add_r by lia. ring.
  - rewrite shr_1_m by assumption. reflexivity.
Qed.

(** [shr] divides the mantissa by [2^n] and raises the exponent by [n]
    ([n] counted as 0 when it is negative). *)
Lemma shr_spec (mrs : shr_record) (e n : Z) :
  0 <= shr_m mrs ->
  shr_m (fst (shr mrs e n)) = shr_m mrs / 2 ^ Z.max n 0 /\
  snd (shr mrs e n) = e + Z.max n 0.
Proof.
  intros H. destruct n as [ | p | p ]; cbn [shr fst snd].
  - cbn. rewrite Z.div_1_r. lia.
  - rewrite iter_shr_1_m by assumption.
    replace (Z.max (Zpos p) 0) with (Zpos p) by lia. split; reflexivity.
  - replace (Z.max (Zneg p) 0) with 0 by lia.
    cbn. rewrite Z.div_1_r. lia.
Qed.

Lemma round_nearest_even_bounds (m : Z) (l : location) :
  m <= round_nearest_even m l <= m + 1.
Proof.
  destruct l as [ | [ | | ] ]; cbn [round_nearest_even];
    try destruct (Z.even m); lia.
Qed.

Lemma binary_round_aux_cases (sx : bool) (mx : positive) (ex : Z) :
  exists m1 : Z,
    Zpos mx / 2 ^ canon_shift (Zpos mx) ex <= m1
      <= Zpos mx / 2 ^ canon_shift (Zpos mx) ex + 1 /\
    binary_round_aux prec emax sx (Zpos mx) ex loc_Exact
      = round_finish sx m1 (ex + canon_shift (Zpos mx) ex).
Proof.
  unfold binary_round_aux, shr_fexp. cbn [shr_record_of_loc].
  set (mrs0 := {| shr_m := Zpos mx; shr_r := false; shr_s := false |}).
  destruct (shr_spec mrs0 ex (fexp prec emax (Zdigits2 (Zpos mx) + ex) - ex))
    as [Hm He]; [cbn; lia | ].
  fold (canon_shift (Zpos mx) ex) in Hm, He.
  destruct (shr mrs0 ex (fexp prec emax (Zdigits2 (Zpos mx) + ex) - ex))
    as [mrs' e'].
  cbn [fst snd] in Hm, He. cbn [shr_m mrs0] in Hm.
  pose proof (round_nearest_even_bounds (shr_m mrs') (loc_of_shr_record mrs'))
    as Hb.
  set (m1 := round_nearest_even (shr_m mrs') (loc_of_shr_record mrs')) in *.
  exists m1. split; [rewrite <- Hm; exact Hb | ].
  assert (H0 : 0 <= m1).
  { assert (0 <= shr_m mrs'); [ | lia].
    rewrite Hm. apply Z.div_pos; [lia | ].
    apply pow2_pos. unfold canon_shift. lia. }
  set (mrs1 := {| shr_m := m1; shr_r := false; shr_s := false |}).
  destruct (shr_spec mrs1 e' (fexp prec emax (Zdigits2 m1 + e') - e'))
    as [Hm2 He2]; [cbn; lia | ].
  fold (canon_shift m1 e') in Hm2, He2.
  destruct (shr mrs1 e' (fexp prec emax (Zdigits2 m1 + e') - e'))
    as [mrs'' e''].
  cbn [fst snd] in Hm2, He2. cbn [shr_m mrs1] in Hm2.
  unfold round_finish. rewrite Hm2, He2, He. reflexivity.
Qed.

Lemma iter_xO_spec (m d : positive) :
  Zpos (Pos.iter xO m d) = Zpos m * 2 ^ Zpos d.
Proof.
  induction d as [ | d IH ] using Pos.peano_ind.
  - cbn [Pos.iter]. rewrite Z.pow_1_r. lia.
  - rewrite Pos.iter_succ, Pos2Z.inj_succ, Z.pow_succ_r by lia.
    rewrite Pos2Z.inj_xO, IH. ring.
Qed.

Lemma shl_align_spec (mx : positive) (ex ez : Z) :
  ez <= ex -> Zpos (fst (shl_align mx ex ez)) = Zpos mx * 2 ^ (ex - ez).
Proof.
  intros H. unfold shl_align. destruct (ez - ex) as [ | d | d ] eqn:E.
  - replace (ex - ez) with 0 by lia. cbn [fst]. rewrite Z.pow_0_r. lia.
  - lia.
  - cbn [fst]. rewrite iter_xO_spec. replace (ex - ez) with (Zpos d) by lia.
    reflexivity.
Qed.

Lemma digits2_pos_iter_xO (m d : positive) :
  Zpos (digits2_pos (Pos.iter xO m d)) = Zpos (digits2_pos m) + Zpos d.
Proof.
  induction d as [ | d IH ] using Pos.peano_ind.
  - cbn [Pos.iter digits2_pos]. lia.
  - rewrite Pos.iter_succ. cbn [digits2_pos]. lia.
Qed.

(** [binary_round] first lowers the exponent as far as the format asks
    (which keeps the value), then rounds. *)
Lemma binary_round_via_aux (sx : bool) (mx : positive) (ex : Z) :
  exists (mz : positive) (ez : Z),
    ez <= ex /\ Zpos mz = Zpos mx * 2 ^ (ex - ez) /\
    ez <= fexp prec emax (Zpos (digits2_pos mz) + ez) /\
    binary_round prec emax sx mx ex
      = binary_round_aux prec emax sx (Zpos mz) ez loc_Exact.
Proof.
  unfold binary_round, shl_align.
  set (ec := fexp prec emax (Zpos (digits2_pos mx) + ex)).
  destruct (ec - ex) as [ | d | d ] eqn:E.
  - exists mx, ex. rewrite Z.sub_diag, Z.pow_0_r. fold ec. repeat split; lia.
  - exists mx, ex. rewrite Z.sub_diag, Z.pow_0_r. fold ec. repeat split; lia.
  - exists (Pos.iter xO mx d), ec. rewrite iter_xO_spec, digits2_pos_iter_xO.
    replace (ex - ec) with (Zpos d) by lia.
    replace (Zpos (digits2_pos mx) + Zpos d + ec)
      with (Zpos (digits2_pos mx) + ex) by lia.
    fold ec. repeat split; lia.
Qed.

Lemma leb_finite_pos (m : positive) (e : Z) (m' : positive) (e' : Z) :
  e < e' \/ (e = e' /\ Zpos m <= Zpos m') ->
  SFleb (S754_finite false m e) (S754_finite false m' e') = true.
Proof.
  intros H. unfold SFleb, SFcompare.
  destruct (Z.compare_spec e e') as [He | He | He]; try reflexivity; try lia.
  change (Pos.compare_cont Eq m m') with (Pos.compare m m').
  destruct (Pos.compare_spec m m') as [Hm | Hm | Hm]; try reflexivity; lia.
Qed.

(** Rounding is monotone against a representable normal number [m * 2^e]:
    a value at or above it rounds to a double at or above it. *)
Lemma round_up_ge (m : positive) (e : Z) (mz : positive) (ez : Z) :
  Zpos (digits2_pos m) = 53 -> -1074 <= e -> ez <= e ->
  Zpos m * 2 ^ (e - ez) <= Zpos mz ->
  SFleb (S754_finite false m e)
        (binary_round_aux prec emax false (Zpos mz) ez loc_Exact) = true.
Proof.
  intros Hd He Hez Hle.
  destruct (binary_round_aux_cases false mz ez) as [m1 [Hm1 ->]].
  pose proof (digits2_pos_bounds m) as Bm. rewrite Hd in Bm.
  pose proof (digits2_pos_bounds mz) as Bz.
  pose proof (pow2_pos (e - ez) ltac:(lia)) as Hp.
  assert (Hdz : 53 + (e - ez) <= Zpos (digits2_pos mz)).
  { enough (52 + (e - ez) + 1 <= Zpos (digits2_pos mz)) by lia.
    apply digits2_pos_lower.
    rewrite Z.pow_add_r by lia.
    apply Z.le_trans with (Zpos m * 2 ^ (e - ez)); [ | assumption].
    apply Z.mul_le_mono_nonneg_r; lia. }
  unfold canon_shift in Hm1 |- *. cbn [Zdigits2] in Hm1 |- *.
  set (dz := Zpos (digits2_pos mz)) in *.
  unfold fexp, emin, prec, emax in Hm1 |- *.
  replace (Z.max (Z.max (dz + ez - 53) (3 - 1024 - 53) - ez) 0)
    with (dz - 53) in * by lia.
  set (m0 := Zpos mz / 2 ^ (dz - 53)) in *.
  pose proof (pow2_pos (dz - 53) ltac:(lia)) as Hpn.
  assert (B0 : 2 ^ 52 <= m0 < 2 ^ 53).
  { split.
    - apply Z.div_le_lower_bound; [assumption | ].
      rewrite <- Z.pow_add_r by lia.
      replace (dz - 53 + 52) with (dz - 1) by lia. apply Bz.
    - apply Z.div_lt_upper_bound; [assumption | ].
      rewrite <- Z.pow_add_r by lia.
      replace (dz - 53 + 53) with dz by lia. apply Bz. }
  assert (Hm0 : e = ez + (dz - 53) -> Zpos m <= m0).
  { intros E. apply Z.div_le_lower_bound; [assumption | ].
    replace (dz - 53) with (e - ez) by lia. rewrite Z.mul_comm. assumption. }
  unfold round_finish, canon_shift.
  destruct m1 as [ | q | q ]; try lia.
  cbn [Zdigits2].
  pose proof (digits2_pos_bounds q) as Bq.
  assert (Hq : 53 <= Zpos (digits2_pos q) <= 54).
  { split.
    - enough (52 + 1 <= Zpos (digits2_pos q)) by lia.
      apply digits2_pos_lower. lia.
    - apply digits2_pos_upper; lia. }
  set (dq := Zpos (digits2_pos q)) in *.
  unfold fexp, emin, prec, emax.
  replace (Z.max (Z.max (dq + (ez + (dz - 53)) - 53) (3 - 1024 - 53)
                  - (ez + (dz - 53))) 0)
    with (dq - 53) by lia.
  destruct (Z.eq_dec dq 53) as [E | E].
  - rewrite E. replace (53 - 53) with 0 by lia.
    rewrite Z.pow_0_r, Z.div_1_r, Z.add_0_r.
    destruct (ez + (dz - 53) <=? 1024 - 53); [ | reflexivity].
    apply leb_finite_pos.
    destruct (Z.eq_dec e (ez + (dz - 53))) as [E' | E'];
      [right; specialize (Hm0 E') | left]; lia.
  - assert (E54 : dq = 54) by lia. rewrite E54 in Bq |- *.
    replace (Zpos q) with (2 ^ 53) by lia.
    replace (2 ^ 53 / 2 ^ (54 - 53)) with (Zpos 4503599627370496)
      by reflexivity.
    destruct (ez + (dz - 53) + (54 - 53) <=? 1024 - 53); [ | reflexivity].
    apply leb_finite_pos. left. lia.
Qed.

(** ... and a value below it rounds to a double at or below it. *)
Lemma round_down_le (m : positive) (e : Z) (mz : positive) (ez : Z) :
  Zpos (digits2_pos m) = 53 -> -1074 <= e <= 971 -> ez <= e ->
  Zpos mz < Zpos m * 2 ^ (e - ez) ->
  SFleb (binary_round_aux prec emax false (Zpos mz) ez loc_Exact)
        (S754_finite false m e) = true.
Proof.
  intros Hd He Hez Hlt.
  destruct (binary_round_aux_cases false mz ez) as [m1 [Hm1 ->]].
  pose proof (digits2_pos_bounds m) as Bm. rewrite Hd in Bm.
  pose proof (pow2_pos (e - ez) ltac:(lia)) as Hp.
  assert (Hdz : Zpos (digits2_pos mz) <= 53 + (e - ez)).
  { apply digits2_pos_upper; [lia | ].
    rewrite Z.pow_add_r by lia.
    apply Z.lt_trans with (Zpos m * 2 ^ (e - ez)); [assumption | ].
    apply Z.mul_lt_mono_pos_r; lia. }
  unfold canon_shift in Hm1 |- *. cbn [Zdigits2] in Hm1 |- *.
  set (dz := Zpos (digits2_pos mz)) in *.
  unfold fexp, emin, prec, emax in Hm1 |- *.
  set (n1 := Z.max (Z.max (dz + ez - 53) (3 - 1024 - 53) - ez) 0) in *.
  assert (Hn1 : 0 <= n1 /\ ez + n1 <= e) by (unfold n1; lia).
  set (e1 := ez + n1) in *.
  pose proof (pow2_pos n1 ltac:(lia)) as Hpn.
  pose proof (pow2_pos (e - e1) ltac:(lia)) as Hpk.
  set (K := Zpos m * 2 ^ (e - e1)).
  assert (HK : Zpos mz / 2 ^ n1 < K).
  { apply Z.div_lt_upper_bound; [assumption | ].
    replace (2 ^ n1 * K) with (Zpos m * 2 ^ (e - ez)); [assumption | ].
    unfold K. replace (e - ez) with (e - e1 + n1) by (unfold e1; lia).
    rewrite Z.pow_add_r by lia. ring. }
  assert (H0 : 0 <= Zpos mz / 2 ^ n1) by (apply Z.div_pos; lia).
  assert (HK53 : K < 2 ^ (53 + (e - e1))).
  { rewrite Z.pow_add_r by lia. unfold K.
    apply Z.mul_lt_mono_pos_r; lia. }
  unfold round_finish, canon_shift.
  destruct m1 as [ | q | q ]; try lia.
  - rewrite Zdiv_0_l. reflexivity.
  - cbn [Zdigits2].
    assert (Hq : Zpos (digits2_pos q) <= 53 + (e - e1)).
    { apply digits2_pos_upper; lia. }
    set (dq := Zpos (digits2_pos q)) in *.
    unfold fexp, emin, prec, emax.
    set (n2 := Z.max (Z.max (dq + e1 - 53) (3 - 1024 - 53) - e1) 0).
    assert (Hn2 : 0 <= n2 /\ e1 + n2 <= e) by (unfold n2; lia).
    pose proof (pow2_pos n2 ltac:(lia)) as Hpn2.
    assert (Hq0 : 0 <= Zpos q / 2 ^ n2) by (apply Z.div_pos; lia).
    destruct (Zpos q / 2 ^ n2) as [ | m' | m' ] eqn:Hm';
      [reflexivity | | lia].
    replace (e1 + n2 <=? 1024 - 53) with true by (symmetry; apply Z.leb_le; lia).
    apply leb_finite_pos.
    destruct (Z.eq_dec (e1 + n2) e) as [E | E]; [right | left; lia].
    split; [assumption | ].
    rewrite <- Hm'.
    apply Z.le_trans with (K / 2 ^ n2).
    + apply Z.div_le_mono; lia.
    + unfold K. replace (e - e1) with n2 by lia.
      rewrite Z.div_mul by lia. lia.
Qed.

Lemma round_finish_signed (sx : bool) (m1 e1 : Z) :
  0 <= m1 -> signed sx (round_finish sx m1 e1) = true.
Proof.
  intros H. unfold round_finish.
  assert (H0 : 0 <= m1 / 2 ^ canon_shift m1 e1).
  { apply Z.div_pos; [assumption | ].
    apply pow2_pos. unfold canon_shift. lia. }
  destruct (m1 / 2 ^ canon_shift m1 e1) as [ | q | q ]; [reflexivity | | lia].
  destruct (e1 + canon_shift m1 e1 <=? emax - prec);
    cbn [signed]; apply Bool.eqb_reflx.
Qed.

Lemma binary_round_aux_signed (sx : bool) (mx : positive) (ex : Z) :
  signed sx (binary_round_aux prec emax sx (Zpos mx) ex loc_Exact) = true.
Proof.
  destruct (binary_round_aux_cases sx mx ex) as [m1 [Hm1 ->]].
  apply round_finish_signed.
  assert (0 <= Zpos mx / 2 ^ canon_shift (Zpos mx) ex); [ | lia].
  apply Z.div_pos; [lia | ].
  apply pow2_pos. unfold canon_shift. lia.
Qed.

Lemma signed_true_le_pos (y : double) (m : positive) (e : Z) :
  signed true y = true -> SFleb y (S754_finite false m e) = true.
Proof.
  destruct y as [s | [ | ] | | [ | ] my ey]; cbn; intros H;
    try reflexivity; discriminate.
Qed.

(** Multiplying by a positive finite number keeps the sign. *)
Lemma mul_pos_signed (s : bool) (d : double) (c : positive) (ec : Z) :
  signed s d = true -> signed s (mul d (S754_finite false c ec)) = true.
Proof.
  destruct d as [sd | sd | | sd md ed]; cbn [signed mul SFmul]; intros H.
  - reflexivity.
  - rewrite Bool.xorb_false_r. assumption.
  - discriminate.
  - rewrite Bool.xorb_false_r.
    apply Bool.eqb_prop in H. subst sd. apply binary_round_aux_signed.
Qed.

(** The result of rounding is a canonical double. *)
Lemma round_finish_valid (sx : bool) (m1 e1 : Z) :
  (-1074 <= e1 /\ 2 ^ 52 <= m1 <= 2 ^ 53) \/ (e1 = -1074 /\ 0 <= m1 <= 2 ^ 52) ->
  valid (round_finish sx m1 e1) = true.
Proof.
  intros H. unfold round_finish, canon_shift.
  destruct m1 as [ | q | q ]; [rewrite Zdiv_0_l; reflexivity | | lia].
  cbn [Zdigits2].
  pose proof (digits2_pos_bounds q) as Bq.
  assert (Hq : Zpos (digits2_pos q) <= 54).
  { apply digits2_pos_upper; lia. }
  set (dq := Zpos (digits2_pos q)) in *.
  unfold fexp, emin, prec, emax.
  destruct (Z.eq_dec dq 54) as [E | E].
  - rewrite E in Bq |- *.
    assert (Hn : -1074 <= e1 /\ Zpos q = 2 ^ 53) by lia.
    destruct Hn as [He1 Hq53]. rewrite Hq53.
    replace (Z.max (Z.max (54 + e1 - 53) (3 - 1024 - 53) - e1) 0) with 1 by lia.
    replace (2 ^ 53 / 2 ^ 1) with (Zpos 4503599627370496) by reflexivity.
    destruct (e1 + 1 <=? 1024 - 53) eqn:T; [ | reflexivity].
    unfold valid, valid_binary, bounded, canonical_mantissa.
    change (Zpos (digits2_pos 4503599627370496)) with 53.
    unfold fexp, emin, prec, emax. rewrite T, andb_true_r.
    apply Z.eqb_eq. lia.
  - assert (Hd : dq <= 53) by lia.
    assert (Hd' : -1074 < e1 -> dq = 53).
    { intros He1. enough (52 + 1 <= dq) by lia.
      apply digits2_pos_lower. lia. }
    replace (Z.max (Z.max (dq + e1 - 53) (3 - 1024 - 53) - e1) 0) with 0 by lia.
    rewrite Z.pow_0_r, Z.div_1_r, Z.add_0_r.
    destruct (e1 <=? 1024 - 53) eqn:T; [ | reflexivity].
    unfold valid, valid_binary, bounded, canonical_mantissa.
    fold dq. unfold fexp, emin, prec, emax. rewrite T, andb_true_r.
    apply Z.eqb_eq. lia.
Qed.

Lemma binary_round_aux_valid (sx : bool) (mz : positive) (ez : Z) :
  ez <= fexp prec emax (Zpos (digits2_pos mz) + ez) ->
  valid (binary_round_aux prec emax sx (Zpos mz) ez loc_Exact) = true.
Proof.
  intros Hez.
  destruct (binary_round_aux_cases sx mz ez) as [m1 [Hm1 ->]].
  pose proof (digits2_pos_bounds mz) as Bz.
  unfold canon_shift in Hm1 |- *. cbn [Zdigits2] in Hm1 |- *.
  set (dz := Zpos (digits2_pos mz)) in *.
  unfold fexp, emin, prec, emax in Hez, Hm1 |- *.
  set (n1 := Z.max (Z.max (dz + ez - 53) (3 - 1024 - 53) - ez) 0) in *.
  assert (Hn1 : 0 <= n1) by (unfold n1; lia).
  pose proof (pow2_pos n1 Hn1) as Hpn.
  assert (H0 : 0 <= Zpos mz / 2 ^ n1) by (apply Z.div_pos; lia).
  apply round_finish_valid.
  destruct (Z_le_gt_dec (-1074) (dz + ez - 53)) as [Hnorm | Hsub].
  - left. assert (En : n1 = dz - 53) by (unfold n1; lia).
    split; [lia | ].
    assert (B0 : 2 ^ 52 <= Zpos mz / 2 ^ n1 < 2 ^ 53); [ | lia].
    split.
    + apply Z.div_le_lower_bound; [assumption | ].
      rewrite <- Z.pow_add_r by lia.
      replace (n1 + 52) with (dz - 1) by lia. apply Bz.
    + apply Z.div_lt_upper_bound; [assumption | ].
      rewrite <- Z.pow_add_r by lia.
      replace (n1 + 53) with dz by lia. apply Bz.
  - right. assert (En : n1 = -1074 - ez) by (unfold n1; lia).
    split; [lia | ].
    assert (B0 : Zpos mz / 2 ^ n1 < 2 ^ 52); [ | lia].
    apply Z.div_lt_upper_bound; [assumption | ].
    rewrite <- Z.pow_add_r by lia.
    apply Z.lt_le_trans with (2 ^ dz); [apply Bz | ].
    apply Z.pow_le_mono_r; lia.
Qed.

Lemma binary_round_valid (sx : bool) (mx : positive) (ex : Z) :
  valid (binary_round prec emax sx mx ex) = true.
Proof.
  destruct (binary_round_via_aux sx mx ex) as (mz & ez & _ & _ & Hez & ->).
  apply binary_round_aux_valid, Hez.
Qed.

(** Whatever is added to a canonical non-zero number, the sum is a
    canonical double. *)
Lemma add_finite_valid (s : bool) (m : positive) (e : Z) (y : double) :
  valid (S754_finite s m e) = true ->
  valid (add (S754_finite s m e) y) = true.
Proof.
  intros Hx. unfold add.
  destruct y as [sy | sy | | sy my ey]; cbn [SFadd];
    try assumption; try reflexivity.
  destruct (cond_Zopp s (Zpos (fst (shl_align m e (Z.min e ey))))
            + cond_Zopp sy (Zpos (fst (shl_align my ey (Z.min e ey)))))
    as [ | M | M ]; cbn [binary_normalize];
    [reflexivity | apply binary_round_valid | apply binary_round_valid].
Qed.

Section AddToNormal.

(** A normal positive double [m * 2^e], such as a point size. *)
Variables (m : positive) (e : Z).
Hypothesis Hdigits : Zpos (digits2_pos m) = 53.
Hypothesis Hexp : -1074 <= e <= 971.

Let x : double := S754_finite false m e.

Lemma add_signed_false_ge (y : double) :
  signed false y = true -> le x (add x y) = true.
Proof.
  unfold le, add, x.
  destruct y as [sy | [ | ] | | [ | ] my ey]; cbn [signed Bool.eqb SFadd];
    intros H; try discriminate.
  - apply leb_finite_pos. right. lia.
  - reflexivity.
  - cbn [cond_Zopp].
    set (ez := Z.min e ey).
    pose proof (shl_align_spec m e ez ltac:(lia)) as Ha.
    set (a := fst (shl_align m e ez)) in *.
    set (b := fst (shl_align my ey ez)).
    change (Zpos a + Zpos b) with (Zpos (a + b)).
    cbn [binary_normalize].
    destruct (binary_round_via_aux false (a + b) ez)
      as (mz & ez' & Hez' & Hmz & _ & ->).
    pose proof (pow2_pos (ez - ez') ltac:(lia)) as Hp.
    apply round_up_ge; try lia.
    rewrite Hmz.
    replace (e - ez') with (e - ez + (ez - ez')) by lia.
    rewrite Z.pow_add_r, Z.mul_assoc, <- Ha by lia.
    apply Z.mul_le_mono_nonneg_r; lia.
Qed.

Lemma add_signed_true_le (y : double) :
  signed true y = true -> le (add x y) x = true.
Proof.
  unfold le, add, x.
  destruct y as [sy | [ | ] | | [ | ] my ey]; cbn [signed Bool.eqb SFadd];
    intros H; try discriminate.
  - apply leb_finite_pos. right. lia.
  - reflexivity.
  - cbn [cond_Zopp].
    set (ez := Z.min e ey).
    pose proof (shl_align_spec m e ez ltac:(lia)) as Ha.
    set (a := fst (shl_align m e ez)) in *.
    set (b := fst (shl_align my ey ez)).
    destruct (Zpos a + - Zpos b) as [ | M | M ] eqn:HM;
      cbn [binary_normalize].
    + reflexivity.
    + destruct (binary_round_via_aux false M ez)
        as (mz & ez' & Hez' & Hmz & _ & ->).
      pose proof (pow2_pos (ez - ez') ltac:(lia)) as Hp.
      apply round_down_le; try lia.
      rewrite Hmz.
      replace (e - ez') with (e - ez + (ez - ez')) by lia.
      rewrite Z.pow_add_r, Z.mul_assoc, <- Ha by lia.
      apply Z.mul_lt_mono_pos_r; lia.
    + destruct (binary_round_via_aux true M ez)
        as (mz & ez' & _ & _ & _ & ->).
      apply signed_true_le_pos, binary_round_aux_signed.
Qed.

End AddToNormal.

Lemma SFcompare_swap (x y : double) :
  SFcompare y x = option_map CompOpp (SFcompare x y).
Proof.
  destruct x as [sx | [ | ] | | [ | ] mx ex], y as [sy | [ | ] | | [ | ] my ey];
    cbn [SFcompare option_map CompOpp]; try reflexivity;
    try (destruct sx; reflexivity); try (destruct sy; reflexivity).
  - rewrite (Z.compare_antisym ex ey).
    destruct (ex ?= ey); cbn [CompOpp]; try reflexivity.
    rewrite (Pos.compare_cont_antisym mx my Eq). reflexivity.
  - rewrite (Z.compare_antisym ex ey).
    destruct (ex ?= ey); cbn [CompOpp]; try reflexivity.
    rewrite (Pos.compare_cont_antisym mx my Eq). reflexivity.
Qed.

(** [x >= y] and [y <= x] are the same test, NaN included. *)
Lemma ge_le_swap (x y : double) : ge x y = le y x.
Proof.
  unfold ge, le, SFleb. rewrite (SFcompare_swap x y).
  destruct (SFcompare x y) as [[ | | ] | ]; reflexivity.
Qed.

Lemma le_not_lt (x y : double) : le x y = true -> lt y x = false.
Proof.
  unfold le, lt, SFleb, SFltb. rewrite (SFcompare_swap x y).
  destruct (SFcompare x y) as [[ | | ] | ]; cbn; congruence.
Qed.

Lemma le_not_gt (x y : double) : le x y = true -> gt x y = false.
Proof.
  unfold le, gt, SFleb.
  destruct (SFcompare x y) as [[ | | ] | ]; cbn; congruence.
Qed.

Lemma ge_zero_signed (d : double) :
  ge d (of_Z 0) = true -> signed false d = true.
Proof.
  change (of_Z 0) with (S754_zero false).
  destruct d as [s | [ | ] | | [ | ] m e]; cbn; intros H;
    try reflexivity; discriminate.
Qed.

Lemma le_zero_signed (d : double) :
  le d (of_Z 0) = true -> signed true d = true.
Proof.
  change (of_Z 0) with (S754_zero false).
  destruct d as [s | [ | ] | | [ | ] m e]; cbn; intros H;
    try reflexivity; discriminate.
Qed.

(** A canonical double within the point size bounds is a positive normal
    number with an exponent between those of 1.0 and 25.0. *)
Lemma in_bounds_shape (x : double) :
  valid x = true -> in_bounds x = true ->
  exists (m : positive) (e : Z),
    x = S754_finite false m e /\ Zpos (digits2_pos m) = 53 /\ -52 <= e <= -48.
Proof.
  intros Hv Hb. unfold in_bounds in Hb.
  change POINT_SIZE_MIN with (S754_finite false 4503599627370496 (-52)) in Hb.
  change POINT_SIZE_MAX with (S754_finite false 7036874417766400 (-48)) in Hb.
  apply andb_prop in Hb as [H1 H2].
  unfold le, SFleb, SFcompare in H1, H2.
  destruct x as [s | [ | ] | | [ | ] m e]; try discriminate.
  exists m, e. split; [reflexivity | ].
  assert (He : -52 <= e <= -48).
  { destruct (Z.compare_spec (-52) e), (Z.compare_spec e (-48));
      try discriminate; lia. }
  split; [ | exact He].
  unfold valid, valid_binary, bounded, canonical_mantissa in Hv.
  apply andb_prop in Hv as [Hc _]. apply Z.eqb_eq in Hc.
  unfold fexp, emin, prec, emax in Hc. lia.
Qed.

End DoubleFacts.

Import DoubleFacts.

(** ** The point size *)

Lemma guard_in_bounds (x : double) :
  ge x POINT_SIZE_MIN && le x POINT_SIZE_MAX = in_bounds x.
Proof. unfold in_bounds. rewrite ge_le_swap. reflexivity. Qed.

Lemma ChangePointSize_unfold (this : PointCloudRenderMode) (change : double) :
  ChangePointSize this change =
  if in_bounds (add (point_size this) (mul change POINT_SIZE_STEP))
  then {| point_size := add (point_size this) (mul change POINT_SIZE_STEP);
          point_color_option := point_color_option this;
          show_normal := show_normal this |}
  else this.
Proof. unfold ChangePointSize. rewrite guard_in_bounds. reflexivity. Qed.

Lemma ChangePointSize_in_bounds (this : PointCloudRenderMode) (change : double) :
  in_bounds (point_size this) = true ->
  in_bounds (point_size (ChangePointSize this change)) = true.
Proof.
  intros H. rewrite ChangePointSize_unfold.
  destruct (in_bounds (add (point_size this) (mul change POINT_SIZE_STEP)))
    eqn:G; [exact G | exact H].
Qed.

Lemma ChangePointSize_valid (this : PointCloudRenderMode) (change : double) :
  valid (point_size this) = true ->
  in_bounds (point_size this) = true ->
  valid (point_size (ChangePointSize this change)) = true.
Proof.
  intros Hv Hb. rewrite ChangePointSize_unfold.
  destruct (in_bounds (add (point_size this) (mul change POINT_SIZE_STEP)));
    [ | exact Hv].
  cbn [point_size].
  destruct (in_bounds_shape _ Hv Hb) as (m & e & Hx & _).
  rewrite Hx in Hv |- *. apply add_finite_valid, Hv.
Qed.

Lemma fold_ChangePointSize_invariant (deltas : list double) :
  forall this : PointCloudRenderMode,
    valid (point_size this) = true ->
    in_bounds (point_size this) = true ->
    valid (point_size (fold_left ChangePointSize deltas this)) = true /\
    in_bounds (point_size (fold_left ChangePointSize deltas this)) = true.
Proof.
  induction deltas as [ | d deltas IH]; intros this Hv Hb; cbn [fold_left].
  - split; assumption.
  - apply IH.
    + apply ChangePointSize_valid; assumption.
    + apply ChangePointSize_in_bounds; assumption.
Qed.

(** C1: whatever the sequence of [ChangePointSize] calls on a new
    [PointCloudRenderMode], the point size is a double that satisfies
    [1.0 <= point_size <= 25.0]; a call computes
    [point_size + change * 1.0], stores it when it lies in [[1.0, 25.0]]
    (bounds included), and otherwise returns the object as it was. *)
Theorem C1_point_size_within_bounds :
  POINT_SIZE_STEP = of_Z 1 /\
  (forall deltas : list double,
     valid
       (point_size (fold_left ChangePointSize deltas PointCloudRenderMode_new))
     = true /\
     in_bounds
       (point_size (fold_left ChangePointSize deltas PointCloudRenderMode_new))
     = true) /\
  (forall (this : PointCloudRenderMode) (change : double),
     ChangePointSize this change =
     if in_bounds (add (point_size this) (mul change POINT_SIZE_STEP))
     then {| point_size := add (point_size this) (mul change POINT_SIZE_STEP);
             point_color_option := point_color_option this;
             show_normal := show_normal this |}
     else this).
Proof.
  split; [reflexivity | split].
  - intros deltas. apply fold_ChangePointSize_invariant; reflexivity.
  - apply ChangePointSize_unfold.
Qed.

(** C2, refuted: from the default size 5.0 a change of 30 gives 35.0, which
    clamping would turn into 25.0; the call leaves the size at 5.0. *)
Lemma C2_clamping_counterexample :
  point_size (ChangePointSize PointCloudRenderMode_new (of_Z 30)) = of_Z 5 /\
  clamp POINT_SIZE_MIN POINT_SIZE_MAX
    (add (point_size PointCloudRenderMode_new) (mul (of_Z 30) POINT_SIZE_STEP))
  = of_Z 25 /\
  point_size (ChangePointSize PointCloudRenderMode_new (of_Z 30)) <>
  clamp POINT_SIZE_MIN POINT_SIZE_MAX
    (add (point_size PointCloudRenderMode_new) (mul (of_Z 30) POINT_SIZE_STEP)).
Proof.
  split; [reflexivity | split; [reflexivity | ] ].
  vm_compute. discriminate.
Qed.

(** C2, amended: after a call the point size is
    [point_size + change * 1.0] when that lies in [[1.0, 25.0]], where it
    is also the clamped value; an out-of-range result is discarded and the
    point size stays what it was. *)
Theorem C2_in_range_or_unchanged :
  forall (this : PointCloudRenderMode) (change : double),
    point_size (ChangePointSize this change) =
    if in_bounds (add (point_size this) (mul change POINT_SIZE_STEP))
    then clamp POINT_SIZE_MIN POINT_SIZE_MAX
           (add (point_size this) (mul change POINT_SIZE_STEP))
    else point_size this.
Proof.
  intros this change. rewrite ChangePointSize_unfold.
  destruct (in_bounds (add (point_size this) (mul change POINT_SIZE_STEP)))
    eqn:G; [ | reflexivity].
  cbn [point_size]. unfold in_bounds in G. apply andb_prop in G as [G1 G2].
  unfold clamp. rewrite (le_not_lt _ _ G1), (le_not_gt _ _ G2). reflexivity.
Qed.

(** C3: the point sizes after 0, 1, ..., 21 calls [ChangePointSize(1)] on a
    new render mode are 5, 6, ..., 25, 25: the size is 25.0 for the first
    time after the 20th call and the 21st call does not raise it. *)
Theorem C3_twenty_steps_to_max :
  map (fun n => point_size (grow n)) (seq 0 22) =
  map of_Z [5; 6; 7; 8; 9; 10; 11; 12; 13; 14; 15; 16; 17; 18; 19; 20;
            21; 22; 23; 24; 25; 25].
Proof. vm_compute. reflexivity. Qed.

(** C4: the default constructors.  A new [PointCloudRenderMode] has point
    size 5.0, color option [POINTCOLOR_DEFAULT] and no normals shown; a new
    [MeshRenderMode] has option [MESHRENDER_FLATSHADE], and its default
    color constant is (0.5, 0.5, 0.5).  As binary64 data, 5.0 is
    [5629499534213120 * 2^-50] and 0.5 is [4503599627370496 * 2^-53], the
    half of 1.0. *)
Theorem C4_default_render_modes :
  point_size PointCloudRenderMode_new = of_Z 5 /\
  point_color_option PointCloudRenderMode_new = POINTCOLOR_DEFAULT /\
  show_normal PointCloudRenderMode_new = false /\
  mesh_render_option MeshRenderMode_new = MESHRENDER_FLATSHADE /\
  DEFAULT_COLOR =
    {| vx := of_dyadic 1 (-1); vy := of_dyadic 1 (-1); vz := of_dyadic 1 (-1) |} /\
  of_Z 5 = S754_finite false 5629499534213120 (-50) /\
  of_dyadic 1 (-1) = S754_finite false 4503599627370496 (-53) /\
  add (of_dyadic 1 (-1)) (of_dyadic 1 (-1)) = of_Z 1.
Proof. repeat split. Qed.

(** C9: a new [MouseControl] has no button and no control key down and the
    cursor at (0.0, 0.0). *)
Theorem C9_default_mouse_control :
  is_mouse_left_button_down MouseControl_new = false /\
  is_control_key_down MouseControl_new = false /\
  mouse_position_x MouseControl_new = of_Z 0 /\
  mouse_position_y MouseControl_new = of_Z 0.
Proof. repeat split. Qed.

Lemma ChangePointSize_zero (this : PointCloudRenderMode) :
  ChangePointSize this (of_Z 0) = this.
Proof.
  destruct this as [ps o n]. unfold ChangePointSize. cbn [point_size].
  change (mul (of_Z 0) POINT_SIZE_STEP) with (S754_zero false).
  destruct ps as [s | s | | s m e].
  - destruct s; reflexivity.
  - destruct s; reflexivity.
  - reflexivity.
  - change (add (S754_finite s m e) (S754_zero false))
      with (S754_finite s m e).
    destruct (ge (S754_finite s m e) POINT_SIZE_MIN
              && le (S754_finite s m e) POINT_SIZE_MAX); reflexivity.
Qed.

Lemma ChangePointSize_up (this : PointCloudRenderMode) (change : double) :
  valid (point_size this) = true ->
  in_bounds (point_size this) = true ->
  ge change (of_Z 0) = true ->
  le (point_size this) (point_size (ChangePointSize this change)) = true.
Proof.
  intros Hv Hb Hc.
  destruct (in_bounds_shape _ Hv Hb) as (m & e & Hx & Hd & He).
  rewrite ChangePointSize_unfold.
  destruct (in_bounds (add (point_size this) (mul change POINT_SIZE_STEP)));
    cbn [point_size]; rewrite Hx.
  - apply add_signed_false_ge; [assumption | lia | ].
    change POINT_SIZE_STEP with (S754_finite false 4503599627370496 (-52)).
    apply mul_pos_signed, ge_zero_signed, Hc.
  - apply leb_finite_pos. right. lia.
Qed.

Lemma ChangePointSize_down (this : PointCloudRenderMode) (change : double) :
  valid (point_size this) = true ->
  in_bounds (point_size this) = true ->
  le change (of_Z 0) = true ->
  le (point_size (ChangePointSize this change)) (point_size this) = true.
Proof.
  intros Hv Hb Hc.
  destruct (in_bounds_shape _ Hv Hb) as (m & e & Hx & Hd & He).
  rewrite ChangePointSize_unfold.
  destruct (in_bounds (add (point_size this) (mul change POINT_SIZE_STEP)));
    cbn [point_size]; rewrite Hx.
  - apply add_signed_true_le; [assumption | lia | ].
    change POINT_SIZE_STEP with (S754_finite false 4503599627370496 (-52)).
    apply mul_pos_signed, le_zero_signed, Hc.
  - apply leb_finite_pos. right. lia.
Qed.

(** C10: on a render mode whose point size is within bounds, a call
    [ChangePointSize(change)] with [change >= 0] does not lower the point
    size and a call with [change <= 0] does not raise it;
    [ChangePointSize(0)] leaves any render mode as it is. *)
Theorem C10_ChangePointSize_monotone
  (this : PointCloudRenderMode) (change : double) :
  valid (point_size this) = true ->
  in_bounds (point_size this) = true ->
  (ge change (of_Z 0) = true ->
   le (point_size this) (point_size (ChangePointSize this change)) = true) /\
  (le change (of_Z 0) = true ->
   le (point_size (ChangePointSize this change)) (point_size this) = true) /\
  (forall that : PointCloudRenderMode, ChangePointSize that (of_Z 0) = that).
Proof.
  intros Hv Hb. split; [ | split].
  - apply ChangePointSize_up; assumption.
  - apply ChangePointSize_down; assumption.
  - apply ChangePointSize_zero.
Qed.

(** The default size 5.0 with the changes 0.375 and -2.5: the sums 5.375
    and 2.5 are in range and are stored. *)
Lemma C10_ChangePointSize_monotone_witness :
  (le (of_Z 5)
      (point_size (ChangePointSize PointCloudRenderMode_new (of_dyadic 3 (-3))))
   = true) /\
  (le (point_size (ChangePointSize PointCloudRenderMode_new (of_dyadic (-5) (-1))))
      (of_Z 5)
   = true).
Proof.
  split.
  - apply (C10_ChangePointSize_monotone PointCloudRenderMode_new
             (of_dyadic 3 (-3)));
      vm_compute; reflexivity.
  - apply (C10_ChangePointSize_monotone PointCloudRenderMode_new
             (of_dyadic (-5) (-1)));
      vm_compute; reflexivity.
Defined.

(** ** The color option *)

(** C5: cycling the point color option five times gives back the option
    one started from, whichever it is; one step goes from each option to
    the next and from [POINTCOLOR_Z] back to [POINTCOLOR_DEFAULT]. *)
Theorem C5_color_cycle_five :
  (forall this : PointCloudRenderMode,
     Nat.iter 5 CyclePointColorOption this = this) /\
  map next_PointColorOption
    [POINTCOLOR_DEFAULT; POINTCOLOR_COLOR; POINTCOLOR_X; POINTCOLOR_Y;
     POINTCOLOR_Z]
  = [POINTCOLOR_COLOR; POINTCOLOR_X; POINTCOLOR_Y; POINTCOLOR_Z;
     POINTCOLOR_DEFAULT].
Proof.
  split; [ | reflexivity].
  intros [ps [ | | | | ] n]; reflexivity.
Qed.

(** ** The geometry registry *)

Lemma fold_AddGeometry_ptrs (gs : list Geometry_ptr) :
  forall this : Visualizer,
    geometry_ptrs_ (fold_left AddGeometry gs this) = geometry_ptrs_ this ++ gs.
Proof.
  induction gs as [ | g gs IH]; intros this; cbn [fold_left].
  - rewrite app_nil_r. reflexivity.
  - rewrite IH. cbn [AddGeometry geometry_ptrs_].
    rewrite <- app_assoc. reflexivity.
Qed.

Lemma Render_drawn (this : Visualizer) :
  map drawn (Render this) = geometry_ptrs_ this.
Proof.
  unfold Render. rewrite map_map.
  induction (geometry_ptrs_ this) as [ | g gs IH]; cbn [map].
  - reflexivity.
  - rewrite IH. destruct (kind g); reflexivity.
Qed.

(** C6: a new visualizer has no geometry.  After the calls
    [AddGeometry(g1)], ..., [AddGeometry(gN)] the registry is
    [g1, ..., gN], a frame draws exactly these entries in this order, and,
    when there is at least one call, [HasGeometry()] is true.  Nothing is
    removed or merged: an entry added twice is held and drawn twice. *)
Theorem C6_registry_in_insertion_order :
  HasGeometry Visualizer_new = false /\
  (forall gs : list Geometry_ptr,
     geometry_ptrs_ (fold_left AddGeometry gs Visualizer_new) = gs /\
     map drawn (Render (fold_left AddGeometry gs Visualizer_new)) = gs) /\
  (forall (g : Geometry_ptr) (gs : list Geometry_ptr),
     HasGeometry (fold_left AddGeometry (g :: gs) Visualizer_new) = true) /\
  (forall g : Geometry_ptr,
     map drawn (Render (AddGeometry (AddGeometry Visualizer_new g) g)) = [g; g]).
Proof.
  split; [reflexivity | split; [ | split] ].
  - intros gs. rewrite Render_drawn, fold_AddGeometry_ptrs. split; reflexivity.
  - intros g gs. unfold HasGeometry. rewrite fold_AddGeometry_ptrs.
    reflexivity.
  - intros g. rewrite Render_drawn. reflexivity.
Qed.

(** ** The window session *)

Lemma fold_dispatch (queue : list WindowEvent) :
  forall w : WindowLifecycle,
    fold_left dispatch queue w =
    if existsb is_WindowClose queue then Closed else w.
Proof.
  induction queue as [ | ev queue IH]; intros w; cbn [fold_left existsb].
  - reflexivity.
  - rewrite IH.
    destruct ev; cbn [is_WindowClose orb dispatch]; try reflexivity.
    destruct w; destruct (existsb is_WindowClose queue); reflexivity.
Qed.

Lemma call_state (w : WindowLifecycle) (c : EventCall) :
  snd (call w c) = if sees_close c then Closed else w.
Proof.
  destruct c; cbn [call PollEvents WaitEvents snd sees_close];
    apply fold_dispatch.
Qed.

Lemma call_returns (w : WindowLifecycle) (c : EventCall) :
  fst (call w c) = negb (is_Closed (snd (call w c))).
Proof. destruct c; reflexivity. Qed.

Lemma state_after_spec (calls : list EventCall) :
  forall w : WindowLifecycle,
    state_after w calls = if existsb sees_close calls then Closed else w.
Proof.
  unfold state_after.
  induction calls as [ | c calls IH]; intros w; cbn [fold_left existsb].
  - reflexivity.
  - rewrite IH, call_state.
    destruct (sees_close c), (existsb sees_close calls); reflexivity.
Qed.

Lemma state_after_snoc (w : WindowLifecycle) (calls : list EventCall)
  (c : EventCall) :
  state_after w (calls ++ [c]) = snd (call (state_after w calls) c).
Proof. unfold state_after. rewrite fold_left_app. reflexivity. Qed.

Lemma returns_nth (before : list EventCall) (c : EventCall)
  (after : list EventCall) :
  forall w : WindowLifecycle,
    nth (List.length before) (returns w (before ++ c :: after)) true =
    fst (call (state_after w before) c).
Proof.
  induction before as [ | b before IH]; intros w.
  - reflexivity.
  - cbn [app List.length returns nth]. rewrite IH. reflexivity.
Qed.

Lemma returns_Closed (calls : list EventCall) :
  returns Closed calls = repeat false (List.length calls).
Proof.
  induction calls as [ | c calls IH]; cbn [returns List.length repeat].
  - reflexivity.
  - rewrite call_returns, call_state.
    replace (if sees_close c then Closed else Closed) with Closed
      by (destruct (sees_close c); reflexivity).
    rewrite IH. reflexivity.
Qed.

(** C7: in an execution that starts with the window open, a call of
    [PollEvents] or [WaitEvents] returns true when the window is not closed
    after it and false when it is; the window is closed from the first call
    that dispatches a close event on; and on a closed window every call
    returns false. *)
Theorem C7_events_true_until_closed :
  forall (before : list EventCall) (c : EventCall) (after : list EventCall),
    nth (List.length before) (returns Open (before ++ c :: after)) true
      = negb (is_Closed (state_after Open (before ++ [c]))) /\
    state_after Open (before ++ [c])
      = (if existsb sees_close (before ++ [c]) then Closed else Open) /\
    returns Closed (c :: after) = repeat false (List.length (c :: after)).
Proof.
  intros before c after. split; [ | split].
  - rewrite returns_nth, state_after_snoc. apply call_returns.
  - apply state_after_spec.
  - apply returns_Closed.
Qed.

(** ** Further facts on [ChangePointSize] *)

Module DoubleOrder.

Lemma leb_finite_pos_inv (m : positive) (e : Z) (m' : positive) (e' : Z) :
  SFleb (S754_finite false m e) (S754_finite false m' e') = true ->
  e < e' \/ (e = e' /\ Zpos m <= Zpos m').
Proof.
  unfold SFleb, SFcompare.
  change (Pos.compare_cont Eq m m') with (Pos.compare m m').
  destruct (Z.compare_spec e e') as [He | He | He];
    destruct (Pos.compare_spec m m') as [Hm | Hm | Hm];
    intros H; try discriminate; lia.
Qed.

Lemma leb_finite_pos_false (m : positive) (e : Z) (m' : positive) (e' : Z) :
  e' < e \/ (e = e' /\ Zpos m' < Zpos m) ->
  SFleb (S754_finite false m e) (S754_finite false m' e') = false.
Proof.
  unfold SFleb, SFcompare.
  change (Pos.compare_cont Eq m m') with (Pos.compare m m').
  destruct (Z.compare_spec e e') as [He | He | He];
    destruct (Pos.compare_spec m m') as [Hm | Hm | Hm];
    intros H; try reflexivity; lia.
Qed.

Lemma ge_finite_pos_false (m : positive) (e : Z) (m' : positive) (e' : Z) :
  e < e' \/ (e = e' /\ Zpos m < Zpos m') ->
  ge (S754_finite false m e) (S754_finite false m' e') = false.
Proof.
  intros H. rewrite ge_le_swap. apply leb_finite_pos_false. lia.
Qed.

Lemma le_antisym_pos (m : positive) (e : Z) (m' : positive) (e' : Z) :
  le (S754_finite false m e) (S754_finite false m' e') = true ->
  le (S754_finite false m' e') (S754_finite false m e) = true ->
  S754_finite false m e = S754_finite false m' e'.
Proof.
  intros H1 H2. apply leb_finite_pos_inv in H1, H2.
  assert (He : e = e') by lia.
  assert (Hm : Zpos m = Zpos m') by lia.
  injection Hm as ->. rewrite He. reflexivity.
Qed.

Lemma le_trans_pos (m1 : positive) (e1 : Z) (m2 : positive) (e2 : Z)
  (m3 : positive) (e3 : Z) :
  le (S754_finite false m1 e1) (S754_finite false m2 e2) = true ->
  le (S754_finite false m2 e2) (S754_finite false m3 e3) = true ->
  le (S754_finite false m1 e1) (S754_finite false m3 e3) = true.
Proof.
  intros H1 H2. apply leb_finite_pos_inv in H1, H2.
  apply leb_finite_pos. lia.
Qed.

Lemma double_eqb_eq (x y : double) : double_eqb x y = true -> x = y.
Proof.
  destruct x as [s | s | | s m e], y as [s' | s' | | s' m' e'];
    cbn [double_eqb]; intros H; try discriminate; try reflexivity.
  - apply Bool.eqb_prop in H. congruence.
  - apply Bool.eqb_prop in H. congruence.
  - apply andb_prop in H as [H He]. apply andb_prop in H as [Hs Hm].
    apply Bool.eqb_prop in Hs. apply Pos.eqb_eq in Hm. apply Z.eqb_eq in He.
    congruence.
Qed.

Lemma Zrange_forallb (P : Z -> bool) (lo : Z) (len : nat) (z : Z) :
  forallb P (Zrange lo len) = true ->
  lo <= z < lo + Z.of_nat len -> P z = true.
Proof.
  intros H Hz. rewrite forallb_forall in H. apply H.
  unfold Zrange. apply in_map_iff. exists (Z.to_nat (z - lo)). split.
  - lia.
  - apply in_seq. lia.
Qed.

End DoubleOrder.

Import DoubleOrder.

Module StepExact.

Lemma iter_shr_1_exact (p : positive) :
  forall q : positive,
    iter_pos shr_1 p
      {| shr_m := Zpos (Pos.iter xO q p); shr_r := false; shr_s := false |}
    = {| shr_m := Zpos q; shr_r := false; shr_s := false |}.
Proof.
  induction p as [p IH | p IH | ]; intros q; cbn [iter_pos].
  - change (Pos.iter xO q p~1)
      with (xO (Pos.iter xO (Pos.iter xO q p) p)).
    cbn [shr_1 orb]. rewrite IH, IH. reflexivity.
  - change (Pos.iter xO q p~0) with (Pos.iter xO (Pos.iter xO q p) p).
    rewrite IH, IH. reflexivity.
  - reflexivity.
Qed.

(** Multiplying a canonical double by the step 1.0 gives it back: the same
    sign, mantissa and exponent, signed zeros and infinities included.  The
    embedding has a single NaN, so for a NaN the equation only says that
    the product is a NaN. *)
Lemma mul_step_exact (d : double) :
  valid d = true -> mul d POINT_SIZE_STEP = d.
Proof.
  change POINT_SIZE_STEP with (S754_finite false 4503599627370496 (-52)).
  destruct d as [s | s | | s m e]; cbn [mul SFmul]; intros Hv;
    rewrite ?xorb_false_r; try reflexivity.
  unfold valid, valid_binary, bounded, canonical_mantissa in Hv.
  apply andb_prop in Hv as [Hc Hb]. apply Z.eqb_eq in Hc.
  assert (Hm : (m * 4503599627370496)%positive = Pos.iter xO m 52).
  { apply Pos2Z.inj. rewrite iter_xO_spec, Pos2Z.inj_mul. reflexivity. }
  rewrite Hm. unfold binary_round_aux, shr_fexp.
  cbn [Zdigits2 shr_record_of_loc]. rewrite digits2_pos_iter_xO.
  replace (Zpos (digits2_pos m) + 52 + (e + -52))
    with (Zpos (digits2_pos m) + e) by lia.
  rewrite Hc. replace (e - (e + -52)) with 52 by lia.
  cbn [shr]. rewrite iter_shr_1_exact.
  cbn [shr_m loc_of_shr_record round_nearest_even Zdigits2].
  replace (e + -52 + 52) with e by lia.
  rewrite Hc, Z.sub_diag. cbn [shr shr_m].
  rewrite Hb. reflexivity.
Qed.

End StepExact.

Import StepExact.

Module Rejection.

(** A canonical double within the bounds, with the comparison to 25.0
    spelled out on the mantissa. *)
Lemma in_bounds_shape_max (x : double) :
  valid x = true -> in_bounds x = true ->
  exists (m : positive) (e : Z),
    x = S754_finite false m e /\ Zpos (digits2_pos m) = 53 /\
    -52 <= e <= -48 /\ (e = -48 -> Zpos m <= 7036874417766400).
Proof.
  intros Hv Hb.
  destruct (in_bounds_shape x Hv Hb) as (m & e & Hx & Hd & He).
  exists m, e. repeat split; try assumption; try lia.
  intros E. rewrite Hx in Hb. unfold in_bounds in Hb.
  apply andb_prop in Hb as [_ H2]. unfold le in H2.
  change POINT_SIZE_MAX with (S754_finite false 7036874417766400 (-48)) in H2.
  apply leb_finite_pos_inv in H2. lia.
Qed.

Lemma above_max (s : double) :
  SFleb (S754_finite false 7036874417766401 (-48)) s = true ->
  le s POINT_SIZE_MAX = false.
Proof.
  change POINT_SIZE_MAX with (S754_finite false 7036874417766400 (-48)).
  destruct s as [b | [ | ] | | [ | ] ms es]; intros H;
    try reflexivity; try discriminate.
  apply leb_finite_pos_inv in H. apply leb_finite_pos_false. lia.
Qed.

Lemma below_min (s : double) :
  SFleb s (S754_finite false 9007199254740991 (-53)) = true ->
  ge s POINT_SIZE_MIN = false.
Proof.
  change POINT_SIZE_MIN with (S754_finite false 4503599627370496 (-52)).
  destruct s as [b | [ | ] | | [ | ] ms es]; intros H;
    try reflexivity; try discriminate.
  apply leb_finite_pos_inv in H. apply ge_finite_pos_false. lia.
Qed.

Lemma signed_true_below_min (s : double) :
  signed true s = true -> ge s POINT_SIZE_MIN = false.
Proof.
  change POINT_SIZE_MIN with (S754_finite false 4503599627370496 (-52)).
  destruct s as [b | [ | ] | | [ | ] ms es]; intros H;
    try reflexivity; discriminate.
Qed.

Section AddLarge.

Variables (mx : positive) (ex : Z) (my : positive) (ey : Z).
Hypothesis Hdx : Zpos (digits2_pos mx) = 53.
Hypothesis Hex : -52 <= ex <= -48.
Hypothesis Hdy : Zpos (digits2_pos my) = 53.
Hypothesis Hbig : -48 < ey \/ (ey = -48 /\ 6755399441055744 < Zpos my).

(** Both operands brought to the exponent [ex] of the point size. *)
Lemma align_large :
  Z.min ex ey = ex /\
  Zpos (fst (shl_align mx ex ex)) = Zpos mx /\
  Zpos (fst (shl_align my ey ex)) = Zpos my * 2 ^ (ey - ex).
Proof.
  split; [lia | split].
  - rewrite shl_align_spec by lia. rewrite Z.sub_diag, Z.pow_0_r. lia.
  - apply shl_align_spec. lia.
Qed.

Lemma large_operand_bound :
  (6755399441055744 + 1) * 2 ^ (-48 - ex) <= Zpos my * 2 ^ (ey - ex).
Proof.
  pose proof (digits2_pos_bounds my) as By. rewrite Hdy in By.
  pose proof (pow2_pos (-48 - ex) ltac:(lia)) as Hp.
  destruct Hbig as [Hgt | [Heq Hm]].
  - replace (ey - ex) with (ey + 47 + (1 + (-48 - ex))) by lia.
    rewrite Z.pow_add_r, (Z.pow_add_r 2 1) by lia.
    pose proof (pow2_pos (ey + 47) ltac:(lia)) as Hq.
    change (2 ^ 1) with 2.
    set (P := 2 ^ (-48 - ex)) in *. set (Q := 2 ^ (ey + 47)) in *.
    assert (H1 : 2 ^ 52 * 1 <= Zpos my * Q).
    { apply Z.mul_le_mono_nonneg; lia. }
    assert (H2 : 2 ^ 52 * 1 * (2 * P) <= Zpos my * Q * (2 * P)).
    { apply Z.mul_le_mono_nonneg_r; lia. }
    apply Z.le_trans with (2 ^ 52 * 1 * (2 * P)); [lia | ].
    replace (Zpos my * (Q * (2 * P))) with (Zpos my * Q * (2 * P)) by ring.
    exact H2.
  - subst ey. apply Z.mul_le_mono_nonneg_r; lia.
Qed.

Lemma small_operand_bounds :
  2 ^ 48 * 2 ^ (-48 - ex) <= Zpos mx < 2 ^ 53.
Proof.
  pose proof (digits2_pos_bounds mx) as Bx. rewrite Hdx in Bx.
  split; [ | lia].
  apply Z.le_trans with (2 ^ 52); [ | lia].
  replace (2 ^ 52) with (2 ^ 48 * 2 ^ 4) by reflexivity.
  apply Z.mul_le_mono_nonneg_l; [lia | ].
  apply Z.pow_le_mono_r; lia.
Qed.

(** A point size plus a change above 24.0 is above 25.0. *)
Lemma add_above_max :
  le (add (S754_finite false mx ex) (S754_finite false my ey)) POINT_SIZE_MAX
  = false.
Proof.
  destruct align_large as (Hez & Ha & Hb).
  pose proof large_operand_bound as HB.
  pose proof small_operand_bounds as HS.
  unfold add. cbn [SFadd cond_Zopp]. rewrite Hez.
  set (a := fst (shl_align mx ex ex)) in *.
  set (b := fst (shl_align my ey ex)) in *.
  change (Zpos a + Zpos b) with (Zpos (a + b)). cbn [binary_normalize].
  destruct (binary_round_via_aux false (a + b) ex)
    as (mz & ez' & Hez' & Hmz & _ & ->).
  apply above_max, round_up_ge; try lia; [reflexivity | ].
  pose proof (pow2_pos (ex - ez') ltac:(lia)) as Hp.
  rewrite Hmz.
  replace (-48 - ez') with (-48 - ex + (ex - ez')) by lia.
  rewrite Z.pow_add_r, Z.mul_assoc by lia.
  apply Z.mul_le_mono_nonneg_r; lia.
Qed.

(** A point size plus a change below -24.0 is below 1.0. *)
Lemma add_below_min :
  (ex = -48 -> Zpos mx <= 7036874417766400) ->
  ge (add (S754_finite false mx ex) (S754_finite true my ey)) POINT_SIZE_MIN
  = false.
Proof.
  intros Hmax.
  destruct align_large as (Hez & Ha & Hb).
  pose proof large_operand_bound as HB.
  pose proof small_operand_bounds as HS.
  unfold add. cbn [SFadd cond_Zopp]. rewrite Hez.
  set (a := fst (shl_align mx ex ex)) in *.
  set (b := fst (shl_align my ey ex)) in *.
  destruct (Zpos a + - Zpos b) as [ | M | M ] eqn:HM; cbn [binary_normalize].
  - reflexivity.
  - pose proof (pow2_pos (-48 - ex) ltac:(lia)) as Hp.
    assert (E : ex = -48).
    { destruct (Z.eq_dec ex (-48)) as [E | E]; [exact E | exfalso].
      assert (2 ^ 1 <= 2 ^ (-48 - ex)) by (apply Z.pow_le_mono_r; lia).
      lia. }
    specialize (Hmax E). rewrite E in *. change (2 ^ (-48 - -48)) with 1 in *.
    assert (HM48 : Zpos M < 2 ^ 48) by lia.
    destruct (binary_round_via_aux false M (-48))
      as (mz & ez' & Hez' & Hmz & Hcan & ->).
    pose proof (pow2_pos (-48 - ez') ltac:(lia)) as Hq.
    assert (Hmz48 : Zpos mz < 2 ^ (- ez')).
    { rewrite Hmz. replace (- ez') with (48 + (-48 - ez')) by lia.
      rewrite Z.pow_add_r by lia. apply Z.mul_lt_mono_pos_r; lia. }
    assert (Hdz : Zpos (digits2_pos mz) <= - ez')
      by (apply digits2_pos_upper; lia).
    unfold fexp, emin, prec, emax in Hcan.
    apply below_min, round_down_le; try lia; [reflexivity | ].
    pose proof (pow2_pos (-53 - ez') ltac:(lia)) as Hr.
    rewrite Hmz. replace (-48 - ez') with (5 + (-53 - ez')) by lia.
    rewrite Z.pow_add_r, Z.mul_assoc by lia.
    apply Z.mul_lt_mono_pos_r; lia.
  - destruct (binary_round_via_aux true M ex)
      as (mz & ez' & _ & _ & _ & ->).
    apply signed_true_below_min, binary_round_aux_signed.
Qed.

End AddLarge.

End Rejection.

Import Rejection.

Module IntegerFacts.

Lemma gt_finite_pos (m : positive) (e : Z) (m' : positive) (e' : Z) :
  e' < e \/ (e = e' /\ Zpos m' < Zpos m) <->
  gt (S754_finite false m e) (S754_finite false m' e') = true.
Proof.
  unfold gt, SFcompare.
  change (Pos.compare_cont Eq m m') with (Pos.compare m m').
  destruct (Z.compare_spec e e') as [He | He | He];
    destruct (Pos.compare_spec m m') as [Hm | Hm | Hm];
    split; intros H; try reflexivity; try discriminate; lia.
Qed.

Lemma lt_finite_neg (m : positive) (e : Z) (m' : positive) (e' : Z) :
  e' < e \/ (e = e' /\ Zpos m' < Zpos m) <->
  lt (S754_finite true m e) (S754_finite true m' e') = true.
Proof.
  unfold lt, SFltb, SFcompare.
  change (Pos.compare_cont Eq m m') with (Pos.compare m m').
  destruct (Z.compare_spec e e') as [He | He | He];
    destruct (Pos.compare_spec m m') as [Hm | Hm | Hm];
    cbn [CompOpp]; split; intros H; try reflexivity; try discriminate; lia.
Qed.

(** A canonical double with the exponent of a number of at least 16 is
    normal. *)
Lemma valid_digits (s : bool) (m : positive) (e : Z) :
  valid (S754_finite s m e) = true -> -1074 < e ->
  Zpos (digits2_pos m) = 53.
Proof.
  unfold valid, valid_binary, bounded, canonical_mantissa.
  intros Hv He. apply andb_prop in Hv as [Hc _]. apply Z.eqb_eq in Hc.
  unfold fexp, emin, prec, emax in Hc. lia.
Qed.

Lemma binary_round_opp (p : positive) (e : Z) :
  binary_round prec emax true p e = SFopp (binary_round prec emax false p e).
Proof.
  unfold binary_round.
  destruct (shl_align p e (fexp prec emax (Zpos (digits2_pos p) + e)))
    as [mz ez].
  unfold binary_round_aux.
  destruct (shr_fexp prec emax (Zpos mz) ez loc_Exact) as [mrs' e'].
  destruct (shr_fexp prec emax
              (round_nearest_even (shr_m mrs') (loc_of_shr_record mrs')) e'
              loc_Exact) as [mrs'' e''].
  destruct (shr_m mrs'') as [ | q | q ]; try reflexivity.
  destruct (e'' <=? emax - prec); reflexivity.
Qed.

Lemma digits2_pos_mul_pow2 (mz p : positive) (k : Z) :
  0 <= k -> Zpos mz = Zpos p * 2 ^ k ->
  Zpos (digits2_pos mz) = Zpos (digits2_pos p) + k.
Proof.
  intros Hk H.
  pose proof (digits2_pos_bounds p) as [Bl Bu].
  pose proof (pow2_pos k Hk) as Hp.
  assert (Hl : 2 ^ (Zpos (digits2_pos p) - 1 + k) <= Zpos mz).
  { rewrite H, Z.pow_add_r by lia. apply Z.mul_le_mono_nonneg_r; lia. }
  assert (Hu : Zpos mz < 2 ^ (Zpos (digits2_pos p) + k)).
  { rewrite H, Z.pow_add_r by lia. apply Z.mul_lt_mono_pos_r; lia. }
  apply digits2_pos_lower in Hl. apply digits2_pos_upper in Hu; lia.
Qed.

Lemma round_finish_ge (m : positive) (e m1 e1 : Z) :
  -1074 <= e <= e1 -> 2 ^ 52 <= m1 <= 2 ^ 53 ->
  (e1 = e -> Zpos m <= m1) ->
  SFleb (S754_finite false m e) (round_finish false m1 e1) = true.
Proof.
  intros He B1 Hm. unfold round_finish, canon_shift.
  destruct m1 as [ | q | q ]; try lia.
  cbn [Zdigits2].
  pose proof (digits2_pos_bounds q) as Bq.
  assert (Hq : 53 <= Zpos (digits2_pos q) <= 54).
  { split.
    - enough (52 + 1 <= Zpos (digits2_pos q)) by lia.
      apply digits2_pos_lower. lia.
    - apply digits2_pos_upper; lia. }
  set (dq := Zpos (digits2_pos q)) in *.
  unfold fexp, emin, prec, emax.
  replace (Z.max (Z.max (dq + e1 - 53) (3 - 1024 - 53) - e1) 0)
    with (dq - 53) by lia.
  destruct (Z.eq_dec dq 53) as [E | E].
  - rewrite E. replace (53 - 53) with 0 by lia.
    rewrite Z.pow_0_r, Z.div_1_r, Z.add_0_r.
    destruct (e1 <=? 1024 - 53); [ | reflexivity].
    apply leb_finite_pos.
    destruct (Z.eq_dec e1 e) as [E' | E'];
      [right; specialize (Hm E') | left]; lia.
  - assert (E54 : dq = 54) by lia. rewrite E54 in Bq |- *.
    replace (Zpos q) with (2 ^ 53) by lia.
    replace (2 ^ 53 / 2 ^ (54 - 53)) with (Zpos 4503599627370496)
      by reflexivity.
    destruct (e1 + (54 - 53) <=? 1024 - 53); [ | reflexivity].
    apply leb_finite_pos. left. lia.
Qed.

(** An integer of at least 25 converts to a double of at least 25.0. *)
Lemma of_Z_ge_25 (p : positive) :
  25 <= Zpos p ->
  SFleb (S754_finite false 7036874417766400 (-48))
        (binary_round prec emax false p 0) = true.
Proof.
  intros Hp.
  destruct (binary_round_via_aux false p 0)
    as (mz & ez & Hez & Hmz & Hcan & ->).
  destruct (binary_round_aux_cases false mz ez) as [m1 [Hm1 ->]].
  pose proof (digits2_pos_mul_pow2 mz p (0 - ez) ltac:(lia) Hmz) as Hdz.
  assert (Hdp : 4 + 1 <= Zpos (digits2_pos p))
    by (apply digits2_pos_lower; lia).
  pose proof (digits2_pos_bounds mz) as Bz.
  unfold canon_shift in Hm1 |- *. cbn [Zdigits2] in Hm1 |- *.
  set (dz := Zpos (digits2_pos mz)) in *.
  unfold fexp, emin, prec, emax in Hcan, Hm1 |- *.
  replace (Z.max (Z.max (dz + ez - 53) (3 - 1024 - 53) - ez) 0)
    with (dz - 53) in * by lia.
  pose proof (pow2_pos (dz - 53) ltac:(lia)) as Hpn.
  assert (B0 : 2 ^ 52 <= Zpos mz / 2 ^ (dz - 53) < 2 ^ 53).
  { split.
    - apply Z.div_le_lower_bound; [assumption | ].
      rewrite <- Z.pow_add_r by lia.
      replace (dz - 53 + 52) with (dz - 1) by lia. apply Bz.
    - apply Z.div_lt_upper_bound; [assumption | ].
      rewrite <- Z.pow_add_r by lia.
      replace (dz - 53 + 53) with dz by lia. apply Bz. }
  apply round_finish_ge; try lia.
  intros E.
  apply Z.le_trans with (Zpos mz / 2 ^ (dz - 53)); [ | lia].
  apply Z.div_le_lower_bound; [assumption | ].
  rewrite Hmz. replace (0 - ez) with (48 + (dz - 53)) by lia.
  rewrite Z.pow_add_r by lia.
  replace (Zpos p * (2 ^ 48 * 2 ^ (dz - 53)))
    with (2 ^ (dz - 53) * (Zpos p * 2 ^ 48)) by ring.
  apply Z.mul_le_mono_nonneg_l; lia.
Qed.

Lemma valid_of_Z (z : Z) : valid (of_Z z) = true.
Proof.
  destruct z as [ | p | p ]; [reflexivity | | ]; apply binary_round_valid.
Qed.

Lemma of_Z_gt_24 (k : Z) : 25 <= k -> gt (of_Z k) (of_Z 24) = true.
Proof.
  intros Hk. destruct k as [ | p | p ]; try lia.
  pose proof (of_Z_ge_25 p Hk) as H.
  pose proof (valid_of_Z (Zpos p)) as Hv.
  change (of_Z (Zpos p)) with (binary_round prec emax false p 0) in Hv |- *.
  change (of_Z 24) with (S754_finite false 6755399441055744 (-48)).
  destruct (binary_round prec emax false p 0) as [b | [ | ] | | [ | ] my ey];
    try discriminate; try reflexivity.
  apply leb_finite_pos_inv in H. apply gt_finite_pos. lia.
Qed.

Lemma of_Z_lt_minus_24 (k : Z) : k <= -25 -> lt (of_Z k) (of_Z (-24)) = true.
Proof.
  intros Hk. destruct k as [ | p | p ]; try lia.
  pose proof (of_Z_ge_25 p ltac:(lia)) as H.
  change (of_Z (Zneg p)) with (binary_round prec emax true p 0).
  rewrite binary_round_opp.
  change (of_Z (-24)) with (S754_finite true 6755399441055744 (-48)).
  destruct (binary_round prec emax false p 0) as [b | [ | ] | | [ | ] my ey];
    try discriminate; try reflexivity.
  apply leb_finite_pos_inv in H. cbn [SFopp negb]. apply lt_finite_neg. lia.
Qed.

End IntegerFacts.

Import IntegerFacts.

(** *** Helper lemmas on whole render modes *)

Lemma with_point_size_same (this : PointCloudRenderMode) (x : double) :
  point_size this = x -> with_point_size this x = this.
Proof. destruct this as [ps o n]. cbn. intros ->. reflexivity. Qed.

Lemma with_point_size_twice (this : PointCloudRenderMode) (x y : double) :
  with_point_size (with_point_size this x) y = with_point_size this y.
Proof. reflexivity. Qed.

Lemma ChangePointSize_exact (this : PointCloudRenderMode) (change : double) :
  valid change = true ->
  ChangePointSize this change =
  if in_bounds (add (point_size this) change)
  then with_point_size this (add (point_size this) change)
  else this.
Proof.
  intros Hv. rewrite ChangePointSize_unfold, mul_step_exact by assumption.
  reflexivity.
Qed.

Lemma large_change_rejected (this : PointCloudRenderMode) (change : double) :
  valid (point_size this) = true ->
  in_bounds (point_size this) = true ->
  valid change = true ->
  gt change (of_Z 24) = true \/ lt change (of_Z (-24)) = true ->
  ChangePointSize this change = this.
Proof.
  intros Hv Hb Hvc Hc.
  destruct (in_bounds_shape_max _ Hv Hb) as (mx & ex & Hx & Hdx & Hex & Hmax).
  rewrite ChangePointSize_exact by assumption.
  enough (E : in_bounds (add (point_size this) change) = false)
    by (rewrite E; reflexivity).
  rewrite Hx. unfold in_bounds. rewrite <- ge_le_swap.
  change (of_Z 24) with (S754_finite false 6755399441055744 (-48)) in Hc.
  change (of_Z (-24)) with (S754_finite true 6755399441055744 (-48)) in Hc.
  destruct Hc as [Hc | Hc].
  - destruct change as [b | [ | ] | | [ | ] my ey]; try discriminate.
    + reflexivity.
    + apply gt_finite_pos in Hc.
      rewrite add_above_max; [apply andb_false_r | assumption.. | | lia].
      apply (valid_digits false my ey Hvc). lia.
  - destruct change as [b | [ | ] | | [ | ] my ey]; try discriminate.
    + reflexivity.
    + apply lt_finite_neg in Hc.
      rewrite add_below_min; [reflexivity | assumption.. | | lia | assumption].
      apply (valid_digits true my ey Hvc). lia.
Qed.

Lemma small_sums_exact :
  forallb (fun n =>
             forallb (fun k => double_eqb (add (of_Z n) (of_Z k)) (of_Z (n + k)))
                     (Zrange (-24) 49))
          (Zrange 1 25) = true.
Proof. vm_compute. reflexivity. Qed.

Lemma small_bounds_test :
  forallb (fun z => Bool.eqb (in_bounds (of_Z z)) ((1 <=? z) && (z <=? 25)))
          (Zrange (-23) 73) = true.
Proof. vm_compute. reflexivity. Qed.

Lemma add_of_Z_small (n k : Z) :
  1 <= n <= 25 -> -24 <= k <= 24 -> add (of_Z n) (of_Z k) = of_Z (n + k).
Proof.
  intros Hn Hk. apply double_eqb_eq.
  pose proof (Zrange_forallb _ 1 25 n small_sums_exact ltac:(lia)) as H.
  cbv beta in H.
  exact (Zrange_forallb _ (-24) 49 k H ltac:(lia)).
Qed.

Lemma in_bounds_of_Z (z : Z) :
  -23 <= z <= 49 -> in_bounds (of_Z z) = (1 <=? z) && (z <=? 25).
Proof.
  intros Hz.
  pose proof (Zrange_forallb _ (-23) 73 z small_bounds_test ltac:(lia)) as H.
  cbv beta in H. apply Bool.eqb_prop in H. exact H.
Qed.

Lemma step_Z_range (n k : Z) : 1 <= n <= 25 -> 1 <= step_Z n k <= 25.
Proof.
  intros Hn. unfold step_Z.
  destruct (1 <=? n + k) eqn:E1; destruct (n + k <=? 25) eqn:E2;
    cbn [andb]; lia.
Qed.

Lemma ChangePointSize_of_Z (this : PointCloudRenderMode) (n k : Z) :
  point_size this = of_Z n -> 1 <= n <= 25 ->
  ChangePointSize this (of_Z k) = with_point_size this (of_Z (step_Z n k)).
Proof.
  intros Hps Hn.
  assert (Hb : in_bounds (point_size this) = true).
  { rewrite Hps, in_bounds_of_Z by lia.
    apply andb_true_intro. split; apply Z.leb_le; lia. }
  assert (Hv : valid (point_size this) = true)
    by (rewrite Hps; apply valid_of_Z).
  destruct (Z_le_gt_dec 25 k) as [Hup | Hup];
    [ | destruct (Z_le_gt_dec k (-25)) as [Hdn | Hdn] ].
  - rewrite large_change_rejected;
      [ | assumption | assumption | apply valid_of_Z
        | left; apply of_Z_gt_24; assumption ].
    unfold step_Z.
    replace (n + k <=? 25) with false by (symmetry; apply Z.leb_gt; lia).
    rewrite andb_false_r. symmetry. apply with_point_size_same, Hps.
  - rewrite large_change_rejected;
      [ | assumption | assumption | apply valid_of_Z
        | right; apply of_Z_lt_minus_24; assumption ].
    unfold step_Z.
    replace (1 <=? n + k) with false by (symmetry; apply Z.leb_gt; lia).
    cbn [andb]. symmetry. apply with_point_size_same, Hps.
  - rewrite ChangePointSize_exact by apply valid_of_Z.
    rewrite Hps, add_of_Z_small, in_bounds_of_Z by lia.
    unfold step_Z.
    destruct ((1 <=? n + k) && (n + k <=? 25)); [reflexivity | ].
    symmetry. apply with_point_size_same, Hps.
Qed.

Lemma fold_ChangePointSize_of_Z (ks : list Z) :
  forall (this : PointCloudRenderMode) (n : Z),
    point_size this = of_Z n -> 1 <= n <= 25 ->
    fold_left ChangePointSize (map of_Z ks) this
    = with_point_size this (of_Z (fold_left step_Z ks n)) /\
    1 <= fold_left step_Z ks n <= 25.
Proof.
  induction ks as [ | k ks IH]; intros this n Hps Hn; cbn [map fold_left].
  - split; [symmetry; apply with_point_size_same, Hps | exact Hn].
  - rewrite (ChangePointSize_of_Z this n k Hps Hn).
    destruct (IH (with_point_size this (of_Z (step_Z n k))) (step_Z n k)
                 eq_refl (step_Z_range n k Hn)) as [E R].
    rewrite E, with_point_size_twice. split; [reflexivity | exact R].
Qed.

(** *** Properties of [ChangePointSize] beyond the bounds *)

(** X1: a NaN or infinite argument never changes the object, whatever its
    state: the sum is then NaN or infinite and fails the range test. *)
Theorem X1_non_finite_change_ignored :
  forall this : PointCloudRenderMode,
    ChangePointSize this S754_nan = this /\
    ChangePointSize this (S754_infinity false) = this /\
    ChangePointSize this (S754_infinity true) = this.
Proof.
  intros [ps o n]. unfold ChangePointSize. cbn [point_size].
  destruct ps as [[ | ] | [ | ] | | s m e]; repeat split; reflexivity.
Qed.

(** X2: the multiplication by [POINT_SIZE_STEP] loses nothing.  For a
    canonical argument that is not NaN, [change * 1.0] is [change] itself
    (the same sign, mantissa and exponent; signed zeros and infinities
    included), and the product is NaN exactly when [change] is.  So the
    candidate size is [point_size + change], rounded once. *)
Theorem X2_step_product_exact
  (this : PointCloudRenderMode) (change : double) :
  valid change = true ->
  (is_nan change = false -> mul change POINT_SIZE_STEP = change) /\
  is_nan (mul change POINT_SIZE_STEP) = is_nan change /\
  ChangePointSize this change =
  (if in_bounds (add (point_size this) change)
   then with_point_size this (add (point_size this) change)
   else this).
Proof.
  intros Hv. split; [ | split].
  - intros _. apply mul_step_exact, Hv.
  - rewrite mul_step_exact by exact Hv. reflexivity.
  - apply ChangePointSize_exact, Hv.
Qed.

(** The default size 5.0 and the change 0.375: the product is 0.375 and the
    new size is 5.375. *)
Lemma X2_step_product_exact_witness :
  mul (of_dyadic 3 (-3)) POINT_SIZE_STEP = of_dyadic 3 (-3) /\
  ChangePointSize PointCloudRenderMode_new (of_dyadic 3 (-3)) =
  with_point_size PointCloudRenderMode_new (of_dyadic 43 (-3)).
Proof.
  destruct (X2_step_product_exact PointCloudRenderMode_new (of_dyadic 3 (-3)))
    as (H1 & _ & H3).
  - vm_compute. reflexivity.
  - split.
    + apply H1. reflexivity.
    + rewrite H3. vm_compute. reflexivity.
Defined.

(** X3: no sequence of [ChangePointSize] calls touches the color option or
    the normal flag. *)
Theorem X3_other_fields_untouched :
  forall (deltas : list double) (this : PointCloudRenderMode),
    point_color_option (fold_left ChangePointSize deltas this)
      = point_color_option this /\
    show_normal (fold_left ChangePointSize deltas this) = show_normal this.
Proof.
  induction deltas as [ | d deltas IH]; intros this; cbn [fold_left].
  - split; reflexivity.
  - destruct (IH (ChangePointSize this d)) as [E1 E2]. rewrite E1, E2.
    unfold ChangePointSize.
    destruct (ge (add (point_size this) (mul d POINT_SIZE_STEP)) POINT_SIZE_MIN
              && le (add (point_size this) (mul d POINT_SIZE_STEP))
                    POINT_SIZE_MAX);
      split; reflexivity.
Qed.

(** X4: the bounds are kept from any state that has them, not only from
    the default one: if the point size is a canonical double in
    [[1.0, 25.0]], it still is after any sequence of calls. *)
Theorem X4_bounds_kept_from_any_state
  (this : PointCloudRenderMode) (deltas : list double) :
  valid (point_size this) = true ->
  in_bounds (point_size this) = true ->
  valid (point_size (fold_left ChangePointSize deltas this)) = true /\
  in_bounds (point_size (fold_left ChangePointSize deltas this)) = true.
Proof. intros Hv Hb. apply fold_ChangePointSize_invariant; assumption. Qed.

(** From the size 2.5, the changes 0.375, NaN, 30, -1.25 and 22.5. *)
Lemma X4_bounds_kept_from_any_state_witness :
  valid
    (point_size
       (fold_left ChangePointSize
          [of_dyadic 3 (-3); S754_nan; of_Z 30; of_dyadic (-5) (-2);
           of_dyadic 45 (-1)]
          (with_point_size PointCloudRenderMode_new (of_dyadic 5 (-1)))))
  = true /\
  in_bounds
    (point_size
       (fold_left ChangePointSize
          [of_dyadic 3 (-3); S754_nan; of_Z 30; of_dyadic (-5) (-2);
           of_dyadic 45 (-1)]
          (with_point_size PointCloudRenderMode_new (of_dyadic 5 (-1)))))
  = true.
Proof.
  apply (X4_bounds_kept_from_any_state
           (with_point_size PointCloudRenderMode_new (of_dyadic 5 (-1))));
    vm_compute; reflexivity.
Defined.

Lemma absorbed_at_bound (this : PointCloudRenderMode) (change : double) :
  valid (point_size this) = true ->
  in_bounds (point_size this) = true ->
  le (point_size this) (point_size (ChangePointSize this change)) = true ->
  le (point_size (ChangePointSize this change)) (point_size this) = true ->
  ChangePointSize this change = this.
Proof.
  intros Hv Hb H1 H2.
  pose proof (ChangePointSize_valid this change Hv Hb) as Hv'.
  pose proof (ChangePointSize_in_bounds this change Hb) as Hb'.
  destruct (in_bounds_shape _ Hv Hb) as (m & e & Hx & _).
  destruct (in_bounds_shape _ Hv' Hb') as (m' & e' & Hx' & _).
  rewrite Hx, Hx' in H1, H2.
  pose proof (le_antisym_pos _ _ _ _ H1 H2) as E.
  rewrite <- Hx, <- Hx' in E.
  rewrite ChangePointSize_unfold in E |- *.
  destruct (in_bounds (add (point_size this) (mul change POINT_SIZE_STEP)));
    [ | reflexivity].
  cbn [point_size] in E. rewrite <- E.
  destruct this as [ps o n]. reflexivity.
Qed.

(** X5: the bounds absorb outward changes.  At the maximum 25.0 a call with
    [change >= 0] returns the object as it is, and so does a call with
    [change <= 0] at the minimum 1.0, also when the change is so small
    that the sum rounds back to the bound and passes the range test. *)
Theorem X5_bounds_absorb_outward_changes
  (this : PointCloudRenderMode) (change : double) :
  (point_size this = POINT_SIZE_MAX /\ ge change (of_Z 0) = true) \/
  (point_size this = POINT_SIZE_MIN /\ le change (of_Z 0) = true) ->
  ChangePointSize this change = this.
Proof.
  intros [[Hps Hc] | [Hps Hc]].
  - assert (Hv : valid (point_size this) = true) by (rewrite Hps; reflexivity).
    assert (Hb : in_bounds (point_size this) = true)
      by (rewrite Hps; reflexivity).
    apply absorbed_at_bound; try assumption.
    + apply ChangePointSize_up; assumption.
    + pose proof (ChangePointSize_in_bounds this change Hb) as Hb'.
      unfold in_bounds in Hb'. apply andb_prop in Hb' as [_ H].
      rewrite Hps. exact H.
  - assert (Hv : valid (point_size this) = true) by (rewrite Hps; reflexivity).
    assert (Hb : in_bounds (point_size this) = true)
      by (rewrite Hps; reflexivity).
    apply absorbed_at_bound; try assumption.
    + pose proof (ChangePointSize_in_bounds this change Hb) as Hb'.
      unfold in_bounds in Hb'. apply andb_prop in Hb' as [H _].
      rewrite Hps. exact H.
    + apply ChangePointSize_down; assumption.
Qed.

(** At 25.0 the change 2^-60 gives a sum that rounds to 25.0. *)
Lemma X5_bounds_absorb_outward_changes_witness :
  ChangePointSize (with_point_size PointCloudRenderMode_new POINT_SIZE_MAX)
                  (of_dyadic 1 (-60))
  = with_point_size PointCloudRenderMode_new POINT_SIZE_MAX.
Proof.
  apply (X5_bounds_absorb_outward_changes
           (with_point_size PointCloudRenderMode_new POINT_SIZE_MAX)
           (of_dyadic 1 (-60))).
  left. split; vm_compute; reflexivity.
Defined.

(** X6: the range is 24 wide, and a change of more than 24 in either
    direction is rejected from every point size within the bounds: if
    [change > 24] or [change < -24], the call returns the object as it
    is. *)
Theorem X6_large_change_rejected
  (this : PointCloudRenderMode) (change : double) :
  valid (point_size this) = true ->
  in_bounds (point_size this) = true ->
  valid change = true ->
  gt change (of_Z 24) = true \/ lt change (of_Z (-24)) = true ->
  ChangePointSize this change = this.
Proof. apply large_change_rejected. Qed.

(** From the size 1.0, the change 24.5. *)
Lemma X6_large_change_rejected_witness :
  ChangePointSize (with_point_size PointCloudRenderMode_new (of_Z 1))
                  (of_dyadic 49 (-1))
  = with_point_size PointCloudRenderMode_new (of_Z 1).
Proof.
  apply (X6_large_change_rejected
           (with_point_size PointCloudRenderMode_new (of_Z 1))
           (of_dyadic 49 (-1)));
    try (vm_compute; reflexivity).
  left. vm_compute. reflexivity.
Defined.

(** X7: on whole numbers the code is the integer counter [step_Z].  From a
    point size that is an integer [n] in 1..25, a sequence of calls whose
    arguments are the integers [ks] converted to [double] ends at the
    integer obtained by folding [step_Z] over [ks], which is again in
    1..25, and changes nothing else.  The integers may be of any magnitude:
    one too large to be a double exactly is rounded by the conversion, and
    the call is rejected as [step_Z] rejects it. *)
Theorem X7_integer_changes_follow_step_Z
  (this : PointCloudRenderMode) (n : Z) (ks : list Z) :
  point_size this = of_Z n ->
  1 <= n <= 25 ->
  fold_left ChangePointSize (map of_Z ks) this
  = with_point_size this (of_Z (fold_left step_Z ks n)) /\
  1 <= fold_left step_Z ks n <= 25.
Proof. intros Hps Hn. apply fold_ChangePointSize_of_Z; assumption. Qed.

(** From the default 5: +3 gives 8, +100 is rejected, -7 gives 1, -1 is
    rejected, +24 gives 25. *)
Lemma X7_integer_changes_follow_step_Z_witness :
  fold_left ChangePointSize (map of_Z [3; 100; -7; -1; 24])
            PointCloudRenderMode_new
  = with_point_size PointCloudRenderMode_new
      (of_Z (fold_left step_Z [3; 100; -7; -1; 24] 5)) /\
  1 <= fold_left step_Z [3; 100; -7; -1; 24] 5 <= 25.
Proof.
  apply (X7_integer_changes_follow_step_Z PointCloudRenderMode_new 5
           [3; 100; -7; -1; 24]).
  - reflexivity.
  - lia.
Defined.

(** X8: repeated single steps saturate.  After [n] calls
    [ChangePointSize(1)] on a new render mode the point size is
    [min (5 + n) 25], and after [n] calls [ChangePointSize(-1)] it is
    [max (5 - n) 1], for every [n]; nothing else has changed. *)
Theorem X8_single_steps_saturate :
  forall n : nat,
    grow n = with_point_size PointCloudRenderMode_new
               (of_Z (Z.min (5 + Z.of_nat n) 25)) /\
    shrink n = with_point_size PointCloudRenderMode_new
                 (of_Z (Z.max (5 - Z.of_nat n) 1)).
Proof.
  induction n as [ | n [IHg IHs] ].
  - split; reflexivity.
  - split.
    + change (grow (S n)) with (ChangePointSize (grow n) (of_Z 1)).
      rewrite IHg.
      rewrite (ChangePointSize_of_Z _ (Z.min (5 + Z.of_nat n) 25) 1)
        by (try reflexivity; lia).
      rewrite with_point_size_twice. do 2 f_equal.
      unfold step_Z.
      destruct (1 <=? Z.min (5 + Z.of_nat n) 25 + 1) eqn:E1;
        destruct (Z.min (5 + Z.of_nat n) 25 + 1 <=? 25) eqn:E2;
        cbn [andb]; lia.
    + change (shrink (S n)) with (ChangePointSize (shrink n) (of_Z (-1))).
      rewrite IHs.
      rewrite (ChangePointSize_of_Z _ (Z.max (5 - Z.of_nat n) 1) (-1))
        by (try reflexivity; lia).
      rewrite with_point_size_twice. do 2 f_equal.
      unfold step_Z.
      destruct (1 <=? Z.max (5 - Z.of_nat n) 1 + -1) eqn:E1;
        destruct (Z.max (5 - Z.of_nat n) 1 + -1 <=? 25) eqn:E2;
        cbn [andb]; lia.
Qed.

(** X9: an accepted integer step can be undone.  If the point size is an
    integer [n] in 1..25 and [n + k] is in 1..25 too, the call with [k]
    followed by the call with [-k] gives back the object one started
    from. *)
Theorem X9_accepted_step_undone
  (this : PointCloudRenderMode) (n k : Z) :
  point_size this = of_Z n ->
  1 <= n <= 25 ->
  1 <= n + k <= 25 ->
  ChangePointSize (ChangePointSize this (of_Z k)) (of_Z (- k)) = this.
Proof.
  intros Hps Hn Hk.
  assert (E1 : step_Z n k = n + k).
  { unfold step_Z.
    destruct (1 <=? n + k) eqn:E1; destruct (n + k <=? 25) eqn:E2;
      cbn [andb]; lia. }
  assert (E2 : step_Z (n + k) (- k) = n).
  { unfold step_Z.
    destruct (1 <=? n + k + - k) eqn:E3; destruct (n + k + - k <=? 25) eqn:E4;
      cbn [andb]; lia. }
  rewrite (ChangePointSize_of_Z this n k Hps Hn), E1.
  rewrite (ChangePointSize_of_Z (with_point_size this (of_Z (n + k)))
             (n + k) (- k) eq_refl Hk), E2.
  rewrite with_point_size_twice. apply with_point_size_same, Hps.
Qed.

(** From the default 5, +7 then -7. *)
Lemma X9_accepted_step_undone_witness :
  ChangePointSize (ChangePointSize PointCloudRenderMode_new (of_Z 7))
                  (of_Z (- 7))
  = PointCloudRenderMode_new.
Proof.
  apply (X9_accepted_step_undone PointCloudRenderMode_new 5 7).
  - reflexivity.
  - lia.
  - lia.
Defined.

Lemma fold_ChangePointSize_up (deltas : list double) :
  forall this : PointCloudRenderMode,
    valid (point_size this) = true ->
    in_bounds (point_size this) = true ->
    forallb (fun d => ge d (of_Z 0)) deltas = true ->
    le (point_size this)
       (point_size (fold_left ChangePointSize deltas this)) = true.
Proof.
  induction deltas as [ | d deltas IH]; intros this Hv Hb Hd;
    cbn [fold_left forallb] in *.
  - destruct (in_bounds_shape _ Hv Hb) as (m & e & -> & _).
    apply leb_finite_pos. right. lia.
  - apply andb_prop in Hd as [Hd Hds].
    pose proof (ChangePointSize_valid this d Hv Hb) as Hv1.
    pose proof (ChangePointSize_in_bounds this d Hb) as Hb1.
    pose proof (ChangePointSize_up this d Hv Hb Hd) as H1.
    pose proof (IH _ Hv1 Hb1 Hds) as H2.
    destruct (fold_ChangePointSize_invariant deltas _ Hv1 Hb1) as [Hv2 Hb2].
    destruct (in_bounds_shape _ Hv Hb) as (m & e & E0 & _).
    destruct (in_bounds_shape _ Hv1 Hb1) as (m1 & e1 & E1 & _).
    destruct (in_bounds_shape _ Hv2 Hb2) as (m2 & e2 & E2 & _).
    rewrite E0, E1, E2 in *.
    exact (le_trans_pos _ _ _ _ _ _ H1 H2).
Qed.

Lemma fold_ChangePointSize_down (deltas : list double) :
  forall this : PointCloudRenderMode,
    valid (point_size this) = true ->
    in_bounds (point_size this) = true ->
    forallb (fun d => le d (of_Z 0)) deltas = true ->
    le (point_size (fold_left ChangePointSize deltas this))
       (point_size this) = true.
Proof.
  induction deltas as [ | d deltas IH]; intros this Hv Hb Hd;
    cbn [fold_left forallb] in *.
  - destruct (in_bounds_shape _ Hv Hb) as (m & e & -> & _).
    apply leb_finite_pos. right. lia.
  - apply andb_prop in Hd as [Hd Hds].
    pose proof (ChangePointSize_valid this d Hv Hb) as Hv1.
    pose proof (ChangePointSize_in_bounds this d Hb) as Hb1.
    pose proof (ChangePointSize_down this d Hv Hb Hd) as H1.
    pose proof (IH _ Hv1 Hb1 Hds) as H2.
    destruct (fold_ChangePointSize_invariant deltas _ Hv1 Hb1) as [Hv2 Hb2].
    destruct (in_bounds_shape _ Hv Hb) as (m & e & E0 & _).
    destruct (in_bounds_shape _ Hv1 Hb1) as (m1 & e1 & E1 & _).
    destruct (in_bounds_shape _ Hv2 Hb2) as (m2 & e2 & E2 & _).
    rewrite E0, E1, E2 in *.
    exact (le_trans_pos _ _ _ _ _ _ H2 H1).
Qed.

(** X10: a run of calls in one direction moves the size in that direction
    only.  From a point size within the bounds, a sequence of calls whose
    arguments are all [>= 0] ends at a size that is not smaller, whichever
    calls were accepted, and a sequence whose arguments are all [<= 0] at
    one that is not larger. *)
Theorem X10_runs_are_monotone
  (this : PointCloudRenderMode) (deltas : list double) :
  valid (point_size this) = true ->
  in_bounds (point_size this) = true ->
  (forallb (fun d => ge d (of_Z 0)) deltas = true ->
   le (point_size this)
      (point_size (fold_left ChangePointSize deltas this)) = true) /\
  (forallb (fun d => le d (of_Z 0)) deltas = true ->
   le (point_size (fold_left ChangePointSize deltas this))
      (point_size this) = true).
Proof.
  intros Hv Hb. split.
  - apply fold_ChangePointSize_up; assumption.
  - apply fold_ChangePointSize_down; assumption.
Qed.

(** From the default 5.0: the run 0.375, 30, 0, 2.5 upwards and the run
    -0.375, -30, -2.5 downwards. *)
Lemma X10_runs_are_monotone_witness :
  le (of_Z 5)
     (point_size
        (fold_left ChangePointSize
           [of_dyadic 3 (-3); of_Z 30; of_Z 0; of_dyadic 5 (-1)]
           PointCloudRenderMode_new)) = true /\
  le (point_size
        (fold_left ChangePointSize
           [of_dyadic (-3) (-3); of_Z (-30); of_dyadic (-5) (-1)]
           PointCloudRenderMode_new))
     (of_Z 5) = true.
Proof.
  split.
  - apply (X10_runs_are_monotone PointCloudRenderMode_new
             [of_dyadic 3 (-3); of_Z 30; of_Z 0; of_dyadic 5 (-1)]);
      vm_compute; reflexivity.
  - apply (X10_runs_are_monotone PointCloudRenderMode_new
             [of_dyadic (-3) (-3); of_Z (-30); of_dyadic (-5) (-1)]);
      vm_compute; reflexivity.
Defined.
